(** * LorentzForceVisualizer: the particle integrator and the simulation state

    A shallow embedding of the simulation core of the visualizer (the
    [Particle] class, the global simulation state and the functions the UI
    calls on it, the mouse callbacks and the measure tool, the listeners of
    the controls, the scene export and import and the application of remote
    results), and the properties of the specification checked against it,
    followed by further properties of the code.

    Numbers.  The program computes on JavaScript numbers.  They are
    idealised here as real numbers: [+], [-], [*], [/], [Math.cos],
    [Math.sin] and [Math.PI] are the operations of [R].  Rounding, signed
    zeros, infinities and [NaN] are outside this model; where a JavaScript
    value may be [NaN] or absent and the program tests for it, the value is
    an [option].  The trail capacity, which the program compares with an
    array length and which the UI sets to an integer or to [Infinity], is an
    integer or [Infinity].  Statements that equate a result with the
    expression the program evaluates carry over to the program; closed
    forms and cancellations do not, and the module [Binary64] transcribes
    the integrator into binary64 arithmetic to show where they fail.  A
    division by a mass of 0 gives [NaN] or an infinity in the program and
    has no meaning in [R]: the statements about steps that depend on the
    quotient assume a mass that is not 0. *)

From Stdlib Require Import Reals Lra Lia ZArith List String Bool.
From Stdlib Require Import DecimalString DecimalNat.
From Stdlib Require Floats.PrimFloat.
Import ListNotations.

Open Scope R_scope.

(** ** Data *)

(** A field object [{ magnitude, angle_deg }]. *)
Record Field : Type := mkField {
  magnitude : R;
  angle_deg : R
}.

(** A point object [{ x, y }] (trail entries, coordinate transforms). *)
Record Point : Type := mkPoint {
  pt_x : R;
  pt_y : R
}.

(** The force object [{ Fx, Fy }] returned by [calculateForce]. *)
Record Force : Type := mkForce {
  Fx : R;
  Fy : R
}.

(** The global [trailLength]: an integer, or [Infinity]. *)
Inductive Capacity : Type :=
| Finite (L : Z)
| Infinity.

(** [n > trailLength], for an array length [n]. *)
Definition exceeds (n : nat) (trailLength : Capacity) : bool :=
  match trailLength with
  | Finite L => (L <? Z.of_nat n)%Z
  | Infinity => false
  end.

(** [Array.prototype.shift]: the array without its first element. *)
Definition shift {A : Type} (a : list A) : list A := tl a.

(** [Array.prototype.push] of one element. *)
Definition push {A : Type} (a : list A) (v : A) : list A := a ++ [v].

(** ** Canvas constants and coordinate transforms *)

Definition CANVAS_WIDTH : R := 900.
Definition CANVAS_HEIGHT : R := 700.
Definition SCALE : R := 28.

Definition worldToScreen (x y : R) : Point :=
  {| pt_x := CANVAS_WIDTH / 2 + x * SCALE;
     pt_y := CANVAS_HEIGHT / 2 - y * SCALE |}.

Definition screenToWorld (sx sy : R) : Point :=
  {| pt_x := (sx - CANVAS_WIDTH / 2) / SCALE;
     pt_y := (CANVAS_HEIGHT / 2 - sy) / SCALE |}.

(** ** class Particle *)

Module Particle.

Record t : Type := mk {
  id : string;
  q : R;
  m : R;
  x : R;
  y : R;
  vx : R;
  vy : R;
  trail : list Point;
  selected : bool
}.

(** [new Particle(id, q, m, x, y, vx, vy)]. *)
Definition constructor (id : string) (q m x y vx vy : R) : t :=
  {| id := id; q := q; m := m; x := x; y := y; vx := vx; vy := vy;
     trail := []; selected := false |}.

(** Assignments to single properties. *)
Definition set_vx (v : R) (p : t) : t :=
  {| id := id p; q := q p; m := m p; x := x p; y := y p;
     vx := v; vy := vy p; trail := trail p; selected := selected p |}.

Definition set_vy (v : R) (p : t) : t :=
  {| id := id p; q := q p; m := m p; x := x p; y := y p;
     vx := vx p; vy := v; trail := trail p; selected := selected p |}.

Definition set_x (v : R) (p : t) : t :=
  {| id := id p; q := q p; m := m p; x := v; y := y p;
     vx := vx p; vy := vy p; trail := trail p; selected := selected p |}.

Definition set_y (v : R) (p : t) : t :=
  {| id := id p; q := q p; m := m p; x := x p; y := v;
     vx := vx p; vy := vy p; trail := trail p; selected := selected p |}.

Definition set_trail (tr : list Point) (p : t) : t :=
  {| id := id p; q := q p; m := m p; x := x p; y := y p;
     vx := vx p; vy := vy p; trail := tr; selected := selected p |}.

(** The signed scalar [Bz] that [calculateForce] derives from the
    magnetic field object: the test is [B.angle_deg === 90]. *)
Definition Bz_of (B : Field) : R :=
  if Req_dec_T (angle_deg B) 90 then magnitude B else - magnitude B.

(** [calculateForce(E, B)], called on [this]. *)
Definition calculateForce (this : t) (E B : Field) : Force :=
  let E_rad := angle_deg E * PI / 180 in
  let Ex := magnitude E * cos E_rad in
  let Ey := magnitude E * sin E_rad in
  let Bz := Bz_of B in
  let Fx := q this * (Ex + vy this * Bz) in
  let Fy := q this * (Ey - vx this * Bz) in
  {| Fx := Fx; Fy := Fy |}.

(** [update(dt, E, B)], called on [this]; the global [trailLength] it
    reads is its first argument.  The result is [this] after the call. *)
Definition update (trailLength : Capacity) (dt : R) (E B : Field)
    (this : t) : t :=
  (* k1 *)
  let f1 := calculateForce this E B in
  let ax1 := Fx f1 / m this in
  let ay1 := Fy f1 / m this in
  (* k2 *)
  let vx_temp := vx this + ax1 * dt / 2 in
  let vy_temp := vy this + ay1 * dt / 2 in
  let tempParticle := this in
  let tempParticle := set_vx vx_temp tempParticle in
  let tempParticle := set_vy vy_temp tempParticle in
  let f2 := calculateForce tempParticle E B in
  let ax2 := Fx f2 / m this in
  let ay2 := Fy f2 / m this in
  (* k3 *)
  let vx_temp2 := vx this + ax2 * dt / 2 in
  let vy_temp2 := vy this + ay2 * dt / 2 in
  let tempParticle := set_vx vx_temp2 tempParticle in
  let tempParticle := set_vy vy_temp2 tempParticle in
  let f3 := calculateForce tempParticle E B in
  let ax3 := Fx f3 / m this in
  let ay3 := Fy f3 / m this in
  (* k4 *)
  let vx_temp3 := vx this + ax3 * dt in
  let vy_temp3 := vy this + ay3 * dt in
  let tempParticle := set_vx vx_temp3 tempParticle in
  let tempParticle := set_vy vy_temp3 tempParticle in
  let f4 := calculateForce tempParticle E B in
  let ax4 := Fx f4 / m this in
  let ay4 := Fy f4 / m this in
  (* the update *)
  let ax := (ax1 + 2 * ax2 + 2 * ax3 + ax4) / 6 in
  let ay := (ay1 + 2 * ay2 + 2 * ay3 + ay4) / 6 in
  let this := set_vx (vx this + ax * dt) this in
  let this := set_vy (vy this + ay * dt) this in
  let this := set_x (x this + vx this * dt) this in
  let this := set_y (y this + vy this * dt) this in
  (* the trail *)
  let this := set_trail (push (trail this) {| pt_x := x this; pt_y := y this |}) this in
  if exceeds (List.length (trail this)) trailLength
  then set_trail (shift (trail this)) this
  else this.

Definition set_selected (b : bool) (p : t) : t :=
  {| id := id p; q := q p; m := m p; x := x p; y := y p;
     vx := vx p; vy := vy p; trail := trail p; selected := b |}.

End Particle.

(** ** The global simulation state *)

Record State : Type := mkState {
  particles : list Particle.t;
  particleIdCounter : nat;
  simulationTime : R;
  isPlaying : bool;
  timeScale : R;
  trailLength : Capacity;
  electricField : Field;
  magneticField : Field;
  measureMode : bool;
  measureStart : option Point;
  measureEnd : option Point;
  measuring : bool
}.

(** The values the globals are initialised with. *)
Definition initialState : State :=
  {| particles := []; particleIdCounter := 0; simulationTime := 0;
     isPlaying := false; timeScale := 1; trailLength := Finite 200;
     electricField := {| magnitude := 0; angle_deg := 0 |};
     magneticField := {| magnitude := 0; angle_deg := 90 |};
     measureMode := false; measureStart := None; measureEnd := None;
     measuring := false |}.

(** Assignments to single globals. *)
Definition set_particles (ps : list Particle.t) (s : State) : State :=
  {| particles := ps; particleIdCounter := particleIdCounter s;
     simulationTime := simulationTime s; isPlaying := isPlaying s;
     timeScale := timeScale s; trailLength := trailLength s;
     electricField := electricField s; magneticField := magneticField s;
     measureMode := measureMode s; measureStart := measureStart s;
     measureEnd := measureEnd s; measuring := measuring s |}.

Definition set_particleIdCounter (n : nat) (s : State) : State :=
  {| particles := particles s; particleIdCounter := n;
     simulationTime := simulationTime s; isPlaying := isPlaying s;
     timeScale := timeScale s; trailLength := trailLength s;
     electricField := electricField s; magneticField := magneticField s;
     measureMode := measureMode s; measureStart := measureStart s;
     measureEnd := measureEnd s; measuring := measuring s |}.

Definition set_simulationTime (t : R) (s : State) : State :=
  {| particles := particles s; particleIdCounter := particleIdCounter s;
     simulationTime := t; isPlaying := isPlaying s;
     timeScale := timeScale s; trailLength := trailLength s;
     electricField := electricField s; magneticField := magneticField s;
     measureMode := measureMode s; measureStart := measureStart s;
     measureEnd := measureEnd s; measuring := measuring s |}.

Definition set_isPlaying (b : bool) (s : State) : State :=
  {| particles := particles s; particleIdCounter := particleIdCounter s;
     simulationTime := simulationTime s; isPlaying := b;
     timeScale := timeScale s; trailLength := trailLength s;
     electricField := electricField s; magneticField := magneticField s;
     measureMode := measureMode s; measureStart := measureStart s;
     measureEnd := measureEnd s; measuring := measuring s |}.

(** ** Functions called from the UI *)

(** The decimal digits of a counter value, as a template literal prints it. *)
Definition decimal (n : nat) : string :=
  NilEmpty.string_of_uint (Nat.to_uint n).

Definition addParticle (q m vx vy : R) (s : State) : State :=
  let worldPos := screenToWorld (CANVAS_WIDTH / 2) (CANVAS_HEIGHT / 2) in
  let particle :=
    Particle.constructor ("p" ++ decimal (particleIdCounter s))
      q m (pt_x worldPos) (pt_y worldPos) vx vy in
  let s := set_particleIdCounter (S (particleIdCounter s)) s in
  set_particles (push (particles s) particle) s.

Definition clearParticles (s : State) : State :=
  set_particleIdCounter 0 (set_particles [] s).

Definition resetSimulation (s : State) : State :=
  let s := set_particles (map (Particle.set_trail []) (particles s)) s in
  set_simulationTime 0 s.

Definition togglePlayPause (s : State) : State * bool :=
  let s := set_isPlaying (negb (isPlaying s)) s in
  (s, isPlaying s).

(** [for (let particle of particles) particle.update(dt, electricField,
    magneticField)]: every particle of the array is updated, in order, with
    the globals as they are during the loop. *)
Definition updateParticles (dt : R) (s : State) : State :=
  set_particles
    (map (Particle.update (trailLength s) dt (electricField s) (magneticField s))
         (particles s)) s.

Definition stepSimulation (s : State) : State :=
  let dt := (1 / 60) * timeScale s in
  let s := updateParticles dt s in
  set_simulationTime (simulationTime s + dt) s.

(** [draw()], the frame callback, as far as the globals go.  Its drawing
    calls read the globals and paint the canvas; they assign none of them. *)
Definition draw (s : State) : State :=
  if isPlaying s then
    let dt := (1 / 60) * timeScale s in
    let s := updateParticles dt s in
    set_simulationTime (simulationTime s + dt) s
  else s.

Definition setTimeScale (scale : R) (s : State) : State :=
  {| particles := particles s; particleIdCounter := particleIdCounter s;
     simulationTime := simulationTime s; isPlaying := isPlaying s;
     timeScale := scale; trailLength := trailLength s;
     electricField := electricField s; magneticField := magneticField s;
     measureMode := measureMode s; measureStart := measureStart s;
     measureEnd := measureEnd s; measuring := measuring s |}.

Definition setTrailLength (length : Capacity) (s : State) : State :=
  {| particles := particles s; particleIdCounter := particleIdCounter s;
     simulationTime := simulationTime s; isPlaying := isPlaying s;
     timeScale := timeScale s; trailLength := length;
     electricField := electricField s; magneticField := magneticField s;
     measureMode := measureMode s; measureStart := measureStart s;
     measureEnd := measureEnd s; measuring := measuring s |}.

Definition setElectricField (magnitude angle_deg : R) (s : State) : State :=
  {| particles := particles s; particleIdCounter := particleIdCounter s;
     simulationTime := simulationTime s; isPlaying := isPlaying s;
     timeScale := timeScale s; trailLength := trailLength s;
     electricField := {| magnitude := magnitude; angle_deg := angle_deg |};
     magneticField := magneticField s;
     measureMode := measureMode s; measureStart := measureStart s;
     measureEnd := measureEnd s; measuring := measuring s |}.

Definition setMagneticField (magnitude angle_deg : R) (s : State) : State :=
  {| particles := particles s; particleIdCounter := particleIdCounter s;
     simulationTime := simulationTime s; isPlaying := isPlaying s;
     timeScale := timeScale s; trailLength := trailLength s;
     electricField := electricField s;
     magneticField := {| magnitude := magnitude; angle_deg := angle_deg |};
     measureMode := measureMode s; measureStart := measureStart s;
     measureEnd := measureEnd s; measuring := measuring s |}.

(** ** The add-particle click handler of [initializeControls]

    The four arguments are the results of [parseFloat] on the input boxes:
    [None] is [NaN].  The result is the state after the handler and the
    message it alerted, if any. *)
Definition addParticleClick (q m vx vy : option R) (s : State)
    : State * option string :=
  match q, m, vx, vy with
  | Some q, Some m, Some vx, Some vy =>
      if Rle_dec m 0
      then (s, Some "Mass must be a positive value"%string)
      else (addParticle q m vx vy s, None)
  | _, _, _, _ =>
      (s, Some "Please enter valid numbers for all parameters"%string)
  end.

(** ** Scene import

    The document that [JSON.parse] returns, first for the documents whose
    parts have the types that [exportScene] writes.  An absent (or [null])
    object or array is [None]; reading a property of it throws a
    [TypeError].  The numbers of a field or of a particle entry are taken
    as present.  The three trailing properties go through [|| default],
    which also replaces a zero.  Documents of any shape follow in
    [importSceneJSON]. *)
Module Scene.

Record fieldsT : Type := mkFields {
  E : option Field;
  B : option Field
}.

Record particleT : Type := mkParticle {
  id : string;
  q : R;
  m : R;
  x : R;
  y : R;
  vx : R;
  vy : R
}.

Record t : Type := mk {
  fields : option fieldsT;
  particles : option (list (option particleT));
  simulationTime : option R;
  timeScale : option R;
  trailLength : option Z
}.

End Scene.

(** What a statement of a [try] block ends with. *)
Inductive Exception : Type :=
| SyntaxError
| TypeError.

(** A statement that reads and assigns globals and may throw: the state it
    leaves, and the exception if it threw.  Assignments made before a
    [throw] stay. *)
Definition Stmt : Type := State -> State * option Exception.

Definition skip : Stmt := fun s => (s, None).
Definition throw (e : Exception) : Stmt := fun s => (s, Some e).
Definition assign (f : State -> State) : Stmt := fun s => (f s, None).

Definition andThen (a b : Stmt) : Stmt :=
  fun s => match a s with
           | (s', None) => b s'
           | (s', Some e) => (s', Some e)
           end.

Notation "a ;; b" := (andThen a b) (at level 61, right associativity).

(** [o.prop ...] for an object [o] that may be absent. *)
Definition withObject {A : Type} (o : option A) (k : A -> Stmt) : Stmt :=
  match o with
  | Some v => k v
  | None => throw TypeError
  end.

(** [a.forEach(f)]: the callback runs on the elements in order, and an
    exception it throws ends the loop. *)
Fixpoint forEach {A : Type} (a : list A) (f : A -> Stmt) : Stmt :=
  match a with
  | [] => skip
  | v :: a' => f v ;; forEach a' f
  end.

(** [v || d] for a number [v] that may be absent. *)
Definition orDefault (v : option R) (d : R) : R :=
  match v with
  | Some r => if Req_dec_T r 0 then d else r
  | None => d
  end.

Definition orDefaultZ (v : option Z) (d : Z) : Z :=
  match v with
  | Some z => if Z.eqb z 0 then d else z
  | None => d
  end.

(** The callback of [scene.particles.forEach] in [reader.onload]. *)
Definition reconstructParticle (pData : option Scene.particleT) : Stmt :=
  withObject pData (fun pData =>
    let particle :=
      Particle.constructor
        (Scene.id pData) (Scene.q pData) (Scene.m pData)
        (Scene.x pData) (Scene.y pData)
        (Scene.vx pData) (Scene.vy pData) in
    assign (fun s => set_particles (push (particles s) particle) s)).

(** The body of the [try] block of [reader.onload].  [parsed] is what
    [JSON.parse] gives on the text of the file, [None] when it throws. *)
Definition importSceneTry (parsed : option Scene.t) : Stmt :=
  match parsed with
  | None => throw SyntaxError
  | Some scene =>
    (* the fields *)
    withObject (Scene.fields scene) (fun fields =>
      withObject (Scene.E fields) (fun E =>
        assign (setElectricField (magnitude E) (angle_deg E))) ;;
      withObject (Scene.B fields) (fun B =>
        assign (setMagneticField (magnitude B) (angle_deg B)))) ;;
    (* the particles *)
    assign clearParticles ;;
    withObject (Scene.particles scene) (fun pDatas =>
      forEach pDatas reconstructParticle) ;;
    (* the other parameters *)
    assign (set_simulationTime (orDefault (Scene.simulationTime scene) 0)) ;;
    assign (setTimeScale (orDefault (Scene.timeScale scene) 1)) ;;
    assign (setTrailLength (Finite (orDefaultZ (Scene.trailLength scene) 200)))
  end.

(** [reader.onload] of [importScene]: the [try] block, and the [catch]
    that logs the exception and alerts.  The result is the state after the
    handler and whether the failure alert was shown. *)
Definition importScene (parsed : option Scene.t) (s : State) : State * bool :=
  match importSceneTry parsed s with
  | (s', None) => (s', false)
  | (s', Some _) => (s', true)
  end.

(** ** Scene documents as JSON values

    What [JSON.parse] returns, for the reads of [reader.onload] on
    documents of any shape.  The members of an object have distinct keys
    ([JSON.parse] keeps the last of equal keys). *)
#[warnings="-register-all"] Inductive JSON : Type :=
| JNull
| JBool (b : bool)
| JNumber (r : R)
| JString (s : string)
| JArray (a : list JSON)
| JObject (members : list (string * JSON)).

Fixpoint lookup (key : string) (members : list (string * JSON)) : option JSON :=
  match members with
  | [] => None
  | (k, v) :: members' => if String.eqb k key then Some v else lookup key members'
  end.

(** [v.key] for a value [v] read from a document; [None] is [undefined].
    Reading a property of [null] or [undefined] throws.  A number, a
    string, a boolean and an array have none of the properties that
    [reader.onload] reads, so the read gives [undefined]. *)
Definition readProperty (v : option JSON) (key : string)
    : Exception + option JSON :=
  match v with
  | None => inl TypeError
  | Some JNull => inl TypeError
  | Some (JObject members) => inr (lookup key members)
  | Some _ => inr None
  end.

(** A value as a number and as a string, when it is one. *)
Definition asNumber (v : option JSON) : option R :=
  match v with
  | Some (JNumber r) => Some r
  | _ => None
  end.

Definition asString (v : option JSON) : option string :=
  match v with
  | Some (JString s) => Some s
  | _ => None
  end.

(** [v || d]: [undefined], [null], [false], [0] and [""] are falsy. *)
Definition truthy (v : option JSON) : bool :=
  match v with
  | None => false
  | Some JNull => false
  | Some (JBool b) => b
  | Some (JNumber r) => if Req_dec_T r 0 then false else true
  | Some (JString s) => negb (String.eqb s "")
  | Some (JArray _) => true
  | Some (JObject _) => true
  end.

Definition orElse (v : option JSON) (d : JSON) : option JSON :=
  if truthy v then v else Some d.

(** A value as a trail capacity, when it is an integer. *)
Definition asCapacity (v : option JSON) : option Capacity :=
  match v with
  | Some (JNumber r) =>
      if Req_dec_T r (IZR (Int_part r)) then Some (Finite (Int_part r)) else None
  | _ => None
  end.

(** A statement of the [try] block on documents of any shape.  The state
    is [None] once a global or a property of a particle holds a value that
    the state of this model cannot hold: [undefined] or a value of another
    type where the model has a number or a string. *)
Definition Action : Type := option State -> option State * option Exception.

Definition throwA (e : Exception) : Action := fun st => (st, Some e).

Definition andThenA (a b : Action) : Action :=
  fun st => match a st with
            | (st', None) => b st'
            | (st', Some e) => (st', Some e)
            end.

(** An assignment of values read from the document. *)
Definition assignA (f : option (State -> State)) : Action :=
  fun st => (match st, f with
             | Some s, Some g => Some (g s)
             | _, _ => None
             end, None).

Definition reading (v : option JSON) (key : string)
    (k : option JSON -> Action) : Action :=
  match readProperty v key with
  | inl e => throwA e
  | inr w => k w
  end.

Fixpoint forEachA (a : list JSON) (f : JSON -> Action) : Action :=
  match a with
  | [] => fun st => (st, None)
  | v :: a' => andThenA (f v) (forEachA a' f)
  end.

(** The callback of [scene.particles.forEach]. *)
Definition reconstructParticleJSON (pData : JSON) : Action :=
  let pData := Some pData in
  reading pData "id" (fun id =>
  reading pData "q" (fun q =>
  reading pData "m" (fun m =>
  reading pData "x" (fun x =>
  reading pData "y" (fun y =>
  reading pData "vx" (fun vx =>
  reading pData "vy" (fun vy =>
  assignA
    (match asString id, asNumber q, asNumber m, asNumber x, asNumber y,
           asNumber vx, asNumber vy with
     | Some id, Some q, Some m, Some x, Some y, Some vx, Some vy =>
         Some (fun s =>
                 set_particles
                   (push (particles s) (Particle.constructor id q m x y vx vy)) s)
     | _, _, _, _, _, _, _ => None
     end)))))))).

(** The body of the [try] block of [reader.onload], on the value that
    [JSON.parse] returns, [None] when it throws. *)
Definition importSceneJSONTry (parsed : option JSON) : Action :=
  match parsed with
  | None => throwA SyntaxError
  | Some scene =>
      let scene := Some scene in
      (* the fields *)
      andThenA
        (reading scene "fields" (fun fields =>
         reading fields "E" (fun E =>
         reading E "magnitude" (fun magnitude =>
         reading E "angle_deg" (fun angle_deg =>
         assignA
           (match asNumber magnitude, asNumber angle_deg with
            | Some magnitude, Some angle_deg =>
                Some (setElectricField magnitude angle_deg)
            | _, _ => None
            end))))))
     (andThenA
        (reading scene "fields" (fun fields =>
         reading fields "B" (fun B =>
         reading B "magnitude" (fun magnitude =>
         reading B "angle_deg" (fun angle_deg =>
         assignA
           (match asNumber magnitude, asNumber angle_deg with
            | Some magnitude, Some angle_deg =>
                Some (setMagneticField magnitude angle_deg)
            | _, _ => None
            end))))))
     (* the particles *)
     (andThenA (assignA (Some clearParticles))
     (andThenA
        (reading scene "particles" (fun particles =>
         match particles with
         | Some (JArray pDatas) => forEachA pDatas reconstructParticleJSON
         | _ => throwA TypeError
         end))
     (* the other parameters *)
     (andThenA
        (reading scene "simulationTime" (fun simulationTime =>
         assignA (option_map set_simulationTime
                    (asNumber (orElse simulationTime (JNumber 0))))))
     (andThenA
        (reading scene "timeScale" (fun timeScale =>
         assignA (option_map setTimeScale
                    (asNumber (orElse timeScale (JNumber 1))))))
        (reading scene "trailLength" (fun trailLength =>
         assignA (option_map setTrailLength
                    (asCapacity (orElse trailLength (JNumber 200)))))))))))
  end.

(** [reader.onload] of [importScene] on documents of any shape: the state
    after the handler, [None] when the model cannot hold it, and whether
    the failure alert was shown. *)
Definition importSceneJSON (parsed : option JSON) (s : State)
    : option State * bool :=
  match importSceneJSONTry parsed (Some s) with
  | (st, None) => (st, false)
  | (st, Some _) => (st, true)
  end.

(** A value that is neither [undefined] nor [null]. *)
Definition present (v : option JSON) : bool :=
  match v with
  | None => false
  | Some JNull => false
  | Some _ => true
  end.

(** The member of an object, [undefined] for any other value. *)
Definition member (v : option JSON) (key : string) : option JSON :=
  match v with
  | Some (JObject members) => lookup key members
  | _ => None
  end.

(** The documents that [reader.onload] reads without an exception: the
    text parses, [fields], [fields.E] and [fields.B] are neither absent
    nor [null], [particles] is an array and none of its entries is
    [null]. *)
Definition loadsWithoutAlert (parsed : option JSON) : bool :=
  match parsed with
  | None => false
  | Some scene =>
      let fields := member (Some scene) "fields" in
      present fields && present (member fields "E")
      && present (member fields "B")
      && match member (Some scene) "particles" with
         | Some (JArray pDatas) => forallb (fun pData => present (Some pData)) pDatas
         | _ => false
         end
  end.

(** A complete particle entry of a document. *)
Definition particleJSON (pData : Scene.particleT) : JSON :=
  JObject [ ("id"%string, JString (Scene.id pData));
            ("q"%string, JNumber (Scene.q pData));
            ("m"%string, JNumber (Scene.m pData));
            ("x"%string, JNumber (Scene.x pData));
            ("y"%string, JNumber (Scene.y pData));
            ("vx"%string, JNumber (Scene.vx pData));
            ("vy"%string, JNumber (Scene.vy pData)) ].

(** A field of a document whose [magnitude] and [angle_deg] are numbers. *)
Definition numericField (v : option JSON) : option Field :=
  match asNumber (member v "magnitude"), asNumber (member v "angle_deg") with
  | Some magnitude, Some angle_deg =>
      Some {| magnitude := magnitude; angle_deg := angle_deg |}
  | _, _ => None
  end.

(** The particle that the callback constructs from an entry whose [id] is
    a string and whose [q], [m], [x], [y], [vx] and [vy] are numbers. *)
Definition entryParticle (pData : JSON) : option Particle.t :=
  let pData := Some pData in
  match asString (member pData "id"), asNumber (member pData "q"),
        asNumber (member pData "m"), asNumber (member pData "x"),
        asNumber (member pData "y"), asNumber (member pData "vx"),
        asNumber (member pData "vy") with
  | Some id, Some q, Some m, Some x, Some y, Some vx, Some vy =>
      Some (Particle.constructor id q m x y vx vy)
  | _, _, _, _, _, _, _ => None
  end.

(** The entries of an array before its first [null]. *)
Fixpoint beforeNull (pDatas : list JSON) : list JSON :=
  match pDatas with
  | [] => []
  | pData :: pDatas' =>
      if present (Some pData) then pData :: beforeNull pDatas' else []
  end.

(** The particle array with the particles of the given entries pushed,
    when each entry has its string and its numbers. *)
Fixpoint pushEntries (pDatas : list JSON) (st : option State) : option State :=
  match pDatas with
  | [] => st
  | pData :: pDatas' =>
      pushEntries pDatas'
        (match st, entryParticle pData with
         | Some s, Some p => Some (set_particles (push (particles s) p) s)
         | _, _ => None
         end)
  end.

(** The particle of a complete entry. *)
Definition particleOf (pData : Scene.particleT) : Particle.t :=
  Particle.constructor (Scene.id pData) (Scene.q pData) (Scene.m pData)
    (Scene.x pData) (Scene.y pData) (Scene.vx pData) (Scene.vy pData).

(** The documents of [Scene.t] as JSON values, an absent part as
    [null]. *)
Definition orNull {A : Type} (f : A -> JSON) (o : option A) : JSON :=
  match o with
  | Some v => f v
  | None => JNull
  end.

Definition fieldJSON (F : Field) : JSON :=
  JObject [ ("magnitude"%string, JNumber (magnitude F));
            ("angle_deg"%string, JNumber (angle_deg F)) ].

Definition sceneJSON (scene : Scene.t) : JSON :=
  JObject
    [ ("fields"%string,
       orNull (fun fields =>
                 JObject [ ("E"%string, orNull fieldJSON (Scene.E fields));
                           ("B"%string, orNull fieldJSON (Scene.B fields)) ])
              (Scene.fields scene));
      ("particles"%string,
       orNull (fun pDatas => JArray (map (orNull particleJSON) pDatas))
              (Scene.particles scene));
      ("simulationTime"%string, orNull JNumber (Scene.simulationTime scene));
      ("timeScale"%string, orNull JNumber (Scene.timeScale scene));
      ("trailLength"%string,
       orNull (fun L => JNumber (IZR L)) (Scene.trailLength scene)) ].

(** The three assignments that end the [try] block. *)
Definition otherParameters (scene : option JSON) : Action :=
  andThenA
    (assignA (option_map set_simulationTime
                (asNumber (orElse (member scene "simulationTime") (JNumber 0)))))
 (andThenA
    (assignA (option_map setTimeScale
                (asNumber (orElse (member scene "timeScale") (JNumber 1)))))
    (assignA (option_map setTrailLength
                (asCapacity (orElse (member scene "trailLength") (JNumber 200)))))).

(** ** Runs of the integrator *)

(** [n] calls of [update] on one particle, with the same arguments. *)
Definition steps (n : nat) (trailLength : Capacity) (dt : R) (E B : Field)
    (p : Particle.t) : Particle.t :=
  Nat.iter n (Particle.update trailLength dt E B) p.

(** The position of a particle, as the point [update] pushes on the trail. *)
Definition position (p : Particle.t) : Point :=
  {| pt_x := Particle.x p; pt_y := Particle.y p |}.

(** The positions after the steps [1], ..., [n], oldest first. *)
Definition positions (n : nat) (trailLength : Capacity) (dt : R) (E B : Field)
    (p : Particle.t) : list Point :=
  map (fun i => position (steps i trailLength dt E B p)) (seq 1 n).

(** ** The integration scheme of the specification

    The scheme as the specification writes it, on velocity and position
    vectors, to compare [update] with. *)

Definition Vec : Type := (R * R)%type.

Definition vadd (u v : Vec) : Vec := (fst u + fst v, snd u + snd v).
Definition vscale (c : R) (v : Vec) : Vec := (c * fst v, c * snd v).

(** [a(v) = ForceLaw(q, v, field) / m]: the force of [calculateForce] on
    the particle moving with velocity [v], over its mass. *)
Definition acceleration (p : Particle.t) (E B : Field) (v : Vec) : Vec :=
  let f := Particle.calculateForce
             (Particle.set_vy (snd v) (Particle.set_vx (fst v) p)) E B in
  (Fx f / Particle.m p, Fy f / Particle.m p).

Definition rk4_velocity (p : Particle.t) (dt : R) (E B : Field) : Vec :=
  let a := acceleration p E B in
  let v0 := (Particle.vx p, Particle.vy p) in
  let k1 := a v0 in
  let k2 := a (vadd v0 (vscale (dt / 2) k1)) in
  let k3 := a (vadd v0 (vscale (dt / 2) k2)) in
  let k4 := a (vadd v0 (vscale dt k3)) in
  vadd v0
    (vscale (dt / 6) (vadd k1 (vadd (vscale 2 k2) (vadd (vscale 2 k3) k4)))).

Definition rk4_position (p : Particle.t) (dt : R) (E B : Field) : Vec :=
  let x0 := (Particle.x p, Particle.y p) in
  let v1 := rk4_velocity p dt E B in
  vadd x0 (vscale dt v1).

(** ** The trail bound

    [trail.length <= trailLength]: the negation of the test of [update].
    With [trailLength = Infinity] every trail is within capacity. *)
Definition withinCapacity (trailLength : Capacity) (p : Particle.t) : bool :=
  negb (exceeds (List.length (Particle.trail p)) trailLength).

(** Every particle of the state is within the capacity of the state. *)
Definition trailsBounded (s : State) : bool :=
  forallb (withinCapacity (trailLength s)) (particles s).

(** The eviction of [update], on the trail after the push. *)
Definition evict (trailLength : Capacity) (tr : list Point) : list Point :=
  if exceeds (List.length tr) trailLength then shift tr else tr.

(** ** Well-formed scene documents

    The objects and arrays [reader.onload] reads properties of: the parsed
    document, its [fields] with [E] and [B], its [particles] array and
    every entry of it. *)
Definition isObject {A : Type} (o : option A) : bool :=
  match o with
  | Some _ => true
  | None => false
  end.

Definition wellFormed (parsed : option Scene.t) : bool :=
  match parsed with
  | None => false
  | Some scene =>
      match Scene.fields scene with
      | Some {| Scene.E := Some _; Scene.B := Some _ |} =>
          match Scene.particles scene with
          | Some pDatas =>
              forallb isObject pDatas
          | None => false
          end
      | _ => false
      end
  end.

(** ** The mouse, the measure tool and the controls *)

(** Assignments to the globals of the measure tool. *)
Definition set_measureMode (b : bool) (s : State) : State :=
  {| particles := particles s; particleIdCounter := particleIdCounter s;
     simulationTime := simulationTime s; isPlaying := isPlaying s;
     timeScale := timeScale s; trailLength := trailLength s;
     electricField := electricField s; magneticField := magneticField s;
     measureMode := b; measureStart := measureStart s;
     measureEnd := measureEnd s; measuring := measuring s |}.

Definition set_measureStart (o : option Point) (s : State) : State :=
  {| particles := particles s; particleIdCounter := particleIdCounter s;
     simulationTime := simulationTime s; isPlaying := isPlaying s;
     timeScale := timeScale s; trailLength := trailLength s;
     electricField := electricField s; magneticField := magneticField s;
     measureMode := measureMode s; measureStart := o;
     measureEnd := measureEnd s; measuring := measuring s |}.

Definition set_measureEnd (o : option Point) (s : State) : State :=
  {| particles := particles s; particleIdCounter := particleIdCounter s;
     simulationTime := simulationTime s; isPlaying := isPlaying s;
     timeScale := timeScale s; trailLength := trailLength s;
     electricField := electricField s; magneticField := magneticField s;
     measureMode := measureMode s; measureStart := measureStart s;
     measureEnd := o; measuring := measuring s |}.

Definition set_measuring (b : bool) (s : State) : State :=
  {| particles := particles s; particleIdCounter := particleIdCounter s;
     simulationTime := simulationTime s; isPlaying := isPlaying s;
     timeScale := timeScale s; trailLength := trailLength s;
     electricField := electricField s; magneticField := magneticField s;
     measureMode := measureMode s; measureStart := measureStart s;
     measureEnd := measureEnd s; measuring := b |}.

(** The first element of an array that passes a test, as a loop with
    [break] and as [Array.prototype.find] give it.  The program holds the
    object; here it is the index of the object in the array. *)
Fixpoint findFirst {A : Type} (test : A -> bool) (a : list A) : option nat :=
  match a with
  | [] => None
  | v :: a' => if test v then Some 0%nat else option_map S (findFirst test a')
  end.

(** An assignment to the object at index [i] of an array. *)
Fixpoint assignAt {A : Type} (i : nat) (f : A -> A) (a : list A) : list A :=
  match a, i with
  | [], _ => []
  | v :: a', O => f v :: a'
  | v :: a', S i' => v :: assignAt i' f a'
  end.

(** [Math.sqrt((particle.x - worldPos.x) ** 2 + (particle.y - worldPos.y) ** 2)]. *)
Definition clickDistance (worldPos : Point) (particle : Particle.t) : R :=
  sqrt ((Particle.x particle - pt_x worldPos) ^ 2
        + (Particle.y particle - pt_y worldPos) ^ 2).

(** The test [dist < 0.3] of [mousePressed]. *)
Definition clicked (worldPos : Point) (particle : Particle.t) : bool :=
  if Rlt_dec (clickDistance worldPos particle) 0.3 then true else false.

(** [mousePressed()], at the mouse position [(mouseX, mouseY)]. *)
Definition mousePressed (mouseX mouseY : R) (s : State) : State :=
  if measureMode s then
    if negb (measuring s) then
      let s := set_measureStart (Some {| pt_x := mouseX; pt_y := mouseY |}) s in
      let s := set_measureEnd None s in
      set_measuring true s
    else s
  else
    let worldPos := screenToWorld mouseX mouseY in
    let clickedParticle := findFirst (clicked worldPos) (particles s) in
    match clickedParticle with
    | Some i =>
        let s := set_particles
                   (map (Particle.set_selected false) (particles s)) s in
        set_particles (assignAt i (Particle.set_selected true) (particles s)) s
    | None => s
    end.

(** [mouseReleased()], at the mouse position [(mouseX, mouseY)]. *)
Definition mouseReleased (mouseX mouseY : R) (s : State) : State :=
  if measureMode s && measuring s then
    let s := set_measureEnd (Some {| pt_x := mouseX; pt_y := mouseY |}) s in
    set_measuring false s
  else s.

Definition toggleMeasureTool (s : State) : State :=
  let s := set_measureMode (negb (measureMode s)) s in
  if negb (measureMode s) then
    let s := set_measureStart None s in
    let s := set_measureEnd None s in
    set_measuring false s
  else s.

(** The distance that [drawMeasureTool] prints for a measurement between
    two screen points: its [distance], computed in world coordinates. *)
Definition measuredDistance (measureStart measureEnd : Point) : R :=
  let startWorld := screenToWorld (pt_x measureStart) (pt_y measureStart) in
  let endWorld := screenToWorld (pt_x measureEnd) (pt_y measureEnd) in
  sqrt ((pt_x endWorld - pt_x startWorld) ^ 2
        + (pt_y endWorld - pt_y startWorld) ^ 2).

(** [getBDirectionAngle()] of [initializeControls]: [selected] is the value
    of the checked radio button of [b-direction], [None] when none is
    checked. *)
Definition getBDirectionAngle (selected : option string) : R :=
  match selected with
  | Some value => if String.eqb value "in" then 270 else 90
  | None => 90
  end.

(** The [input] listeners of the sliders and the [change] listener of the
    radio buttons.  Their arguments are the numbers they parse from the
    controls; the texts they write next to the sliders are left out. *)
Definition eMagnitude_input (value eAngle : R) (s : State) : State :=
  setElectricField value eAngle s.

Definition eAngle_input (value eMagnitude : R) (s : State) : State :=
  setElectricField eMagnitude value s.

Definition bMagnitude_input (value : R) (selected : option string)
    (s : State) : State :=
  setMagneticField value (getBDirectionAngle selected) s.

Definition bDirection_change (bMagnitude : R) (selected : option string)
    (s : State) : State :=
  setMagneticField bMagnitude (getBDirectionAngle selected) s.

Definition trailLength_input (value : Z) (s : State) : State :=
  if Z.eqb value 1000 then setTrailLength Infinity s
  else setTrailLength (Finite value) s.

(** [resetAllValues()], as far as the globals go: the values it writes
    into the controls are left out. *)
Definition resetAllValues (s : State) : State :=
  let s := setElectricField 0 0 s in
  let s := setMagneticField 0 90 s in
  let s := setTrailLength (Finite 200) s in
  let s := clearParticles s in
  resetSimulation s.

(** The [keydown] listener: [key] is [e.key]. *)
Definition keydown (key : string) (ctrlKey metaKey : bool) (s : State) : State :=
  if String.eqb key " " then fst (togglePlayPause s)
  else if String.eqb key "r" || String.eqb key "R" then resetAllValues s
  else if String.eqb key "c" || String.eqb key "C" then
    if ctrlKey || metaKey then s else clearParticles s
  else s.

(** ** Scene export and remote results *)

(** The document of [exportScene], as [JSON.parse] reads back the text
    that [JSON.stringify] writes: a [trailLength] of [Infinity] is written
    as [null]. *)
Definition exportScene (s : State) : Scene.t :=
  {| Scene.fields :=
       Some {| Scene.E := Some (electricField s);
               Scene.B := Some (magneticField s) |};
     Scene.particles :=
       Some (map (fun p =>
                    Some {| Scene.id := Particle.id p;
                            Scene.q := Particle.q p;
                            Scene.m := Particle.m p;
                            Scene.x := Particle.x p;
                            Scene.y := Particle.y p;
                            Scene.vx := Particle.vx p;
                            Scene.vy := Particle.vy p |})
                 (particles s));
     Scene.simulationTime := Some (simulationTime s);
     Scene.timeScale := Some (timeScale s);
     Scene.trailLength :=
       match trailLength s with
       | Finite L => Some L
       | Infinity => None
       end |}.

(** The results of the remote simulation, as [applySimulationResults]
    reads them: [results.data.particles] maps a particle id to four
    parallel arrays of samples.  The entries are in the order of
    [for ... in]; the unused [times] is left out. *)
Module Results.

Record seriesT : Type := mkSeries {
  x : list R;
  y : list R;
  vx : list R;
  vy : list R
}.

Record t : Type := mk {
  data : option (list (string * seriesT))
}.

End Results.

(** All the values of an array of reads, if none is [undefined]. *)
Fixpoint allDefined {A : Type} (a : list (option A)) : option (list A) :=
  match a with
  | [] => Some []
  | Some v :: a' => option_map (cons v) (allDefined a')
  | None :: a' => None
  end.

(** The body of [if (particle)] in [applySimulationResults], on the
    particle found.  An array read past the end is [undefined]; the result
    is [None] when the program would store [undefined] in a numeric
    property, which the numbers of this model cannot hold. *)
Definition applySeries (data : Results.seriesT) (particle : Particle.t)
    : option Particle.t :=
  let lastIndex := (Z.of_nat (List.length (Results.x data)) - 1)%Z in
  let read (a : list R) : option R :=
    if (lastIndex <? 0)%Z then None else nth_error a (Z.to_nat lastIndex) in
  let trail :=
    allDefined
      (map (fun i => match nth_error (Results.x data) i,
                           nth_error (Results.y data) i with
                     | Some xi, Some yi => Some {| pt_x := xi; pt_y := yi |}
                     | _, _ => None
                     end)
           (seq 0 (List.length (Results.x data)))) in
  match read (Results.x data), read (Results.y data),
        read (Results.vx data), read (Results.vy data), trail with
  | Some x, Some y, Some vx, Some vy, Some trail =>
      Some (Particle.set_trail trail
              (Particle.set_vy vy
                 (Particle.set_vx vx
                    (Particle.set_y y (Particle.set_x x particle)))))
  | _, _, _, _, _ => None
  end.

(** One round of the [for ... in] loop: the first particle with the id, if
    there is one, gets the series. *)
Definition applyEntry (entry : string * Results.seriesT)
    (ps : list Particle.t) : option (list Particle.t) :=
  let (particleId, data) := entry in
  match findFirst (fun p => String.eqb (Particle.id p) particleId) ps with
  | Some i =>
      match nth_error ps i with
      | Some particle =>
          option_map (fun particle' => assignAt i (fun _ => particle') ps)
            (applySeries data particle)
      | None => Some ps
      end
  | None => Some ps
  end.

Fixpoint applyEntries (entries : list (string * Results.seriesT))
    (ps : list Particle.t) : option (list Particle.t) :=
  match entries with
  | [] => Some ps
  | entry :: entries' =>
      match applyEntry entry ps with
      | Some ps' => applyEntries entries' ps'
      | None => None
      end
  end.

(** [applySimulationResults(results)]: [results] is [None] when it is
    [null], and its [data] is [None] when that is missing. *)
Definition applySimulationResults (results : option Results.t) (s : State)
    : option State :=
  match results with
  | None => Some s
  | Some r =>
      match Results.data r with
      | None => Some s
      | Some particleData =>
          option_map (fun ps => set_particles ps s)
            (applyEntries particleData (particles s))
      end
  end.

(** Two particles with the same id, charge, mass and selected flag. *)
Definition sameIdentity (p p' : Particle.t) : Prop :=
  Particle.id p' = Particle.id p /\
  Particle.q p' = Particle.q p /\
  Particle.m p' = Particle.m p /\
  Particle.selected p' = Particle.selected p.

(** ** Events

    What the browser and p5 call on the state: the frame callback, the
    mouse callbacks, the listeners of the controls and of the keyboard,
    and the load of a scene file.  The field setting at the end of
    [initializeControls] makes the calls of [EMagnitudeInput] and
    [BMagnitudeInput]. *)
Inductive Event : Type :=
| Frame
| MousePressed (mouseX mouseY : R)
| MouseReleased (mouseX mouseY : R)
| EMagnitudeInput (value eAngle : R)
| EAngleInput (value eMagnitude : R)
| BMagnitudeInput (value : R) (selected : option string)
| BDirectionChange (bMagnitude : R) (selected : option string)
| TrailLengthInput (value : Z)
| AddParticleClick (q m vx vy : option R)
| PlayPauseClick
| StepClick
| ResetClick
| ClearClick
| MeasureToolClick
| KeyDown (key : string) (ctrlKey metaKey : bool)
| SceneLoaded (parsed : option Scene.t).

Definition handle (e : Event) (s : State) : State :=
  match e with
  | Frame => draw s
  | MousePressed mouseX mouseY => mousePressed mouseX mouseY s
  | MouseReleased mouseX mouseY => mouseReleased mouseX mouseY s
  | EMagnitudeInput value eAngle => eMagnitude_input value eAngle s
  | EAngleInput value eMagnitude => eAngle_input value eMagnitude s
  | BMagnitudeInput value selected => bMagnitude_input value selected s
  | BDirectionChange bMagnitude selected => bDirection_change bMagnitude selected s
  | TrailLengthInput value => trailLength_input value s
  | AddParticleClick q m vx vy => fst (addParticleClick q m vx vy s)
  | PlayPauseClick => fst (togglePlayPause s)
  | StepClick => stepSimulation s
  | ResetClick => resetAllValues s
  | ClearClick => clearParticles s
  | MeasureToolClick => toggleMeasureTool s
  | KeyDown key ctrlKey metaKey => keydown key ctrlKey metaKey s
  | SceneLoaded parsed => fst (importScene parsed s)
  end.

(** The state after a sequence of events, the first event first. *)
Definition run (events : list Event) (s : State) : State :=
  fold_left (fun s e => handle e s) events s.

Definition isSceneLoaded (e : Event) : bool :=
  match e with
  | SceneLoaded _ => true
  | _ => false
  end.

(** The ids that [addParticle] gives from a cleared collection on. *)
Definition counterIds (n : nat) : list string :=
  map (fun i => ("p" ++ decimal i)%string) (seq 0 n).

(** The measure tool is off with nothing kept, or on; a measurement under
    way has its start and no end, and a finished one has both. *)
Definition measureConsistent (s : State) : bool :=
  if measureMode s then
    if measuring s
    then isObject (measureStart s) && negb (isObject (measureEnd s))
    else implb (isObject (measureEnd s)) (isObject (measureStart s))
  else negb (measuring s) && negb (isObject (measureStart s))
       && negb (isObject (measureEnd s)).

(** ** The integrator in binary64

    [calculateForce] and [update] once more, on the numbers the program
    has: IEEE 754 binary64 with round to nearest even, the arithmetic of
    the primitive floats.  [Math.cos] and [Math.sin] are approximated by
    the implementation; they are arguments of the model. *)
Module Binary64.

Import PrimFloat.
Local Open Scope float_scope.

(** [Math.cos] and [Math.sin]. *)
Record Math : Type := mkMath {
  cos : float -> float;
  sin : float -> float
}.

(** [Math.PI]. *)
Definition PI : float := 0x1.921fb54442d18p+1.

Record Field : Type := mkField {
  magnitude : float;
  angle_deg : float
}.

Record Point : Type := mkPoint {
  pt_x : float;
  pt_y : float
}.

Record Force : Type := mkForce {
  Fx : float;
  Fy : float
}.

Record Particle : Type := mkParticle {
  id : string;
  q : float;
  m : float;
  x : float;
  y : float;
  vx : float;
  vy : float;
  trail : list Point;
  selected : bool
}.

Definition constructor (id : string) (q m x y vx vy : float) : Particle :=
  {| id := id; q := q; m := m; x := x; y := y; vx := vx; vy := vy;
     trail := []; selected := false |}.

Definition set_vx (v : float) (p : Particle) : Particle :=
  {| id := id p; q := q p; m := m p; x := x p; y := y p;
     vx := v; vy := vy p; trail := trail p; selected := selected p |}.

Definition set_vy (v : float) (p : Particle) : Particle :=
  {| id := id p; q := q p; m := m p; x := x p; y := y p;
     vx := vx p; vy := v; trail := trail p; selected := selected p |}.

Definition set_x (v : float) (p : Particle) : Particle :=
  {| id := id p; q := q p; m := m p; x := v; y := y p;
     vx := vx p; vy := vy p; trail := trail p; selected := selected p |}.

Definition set_y (v : float) (p : Particle) : Particle :=
  {| id := id p; q := q p; m := m p; x := x p; y := v;
     vx := vx p; vy := vy p; trail := trail p; selected := selected p |}.

Definition set_trail (tr : list Point) (p : Particle) : Particle :=
  {| id := id p; q := q p; m := m p; x := x p; y := y p;
     vx := vx p; vy := vy p; trail := tr; selected := selected p |}.

(** [calculateForce(E, B)], called on [this]. *)
Definition calculateForce (M : Math) (this : Particle) (E B : Field) : Force :=
  let E_rad := angle_deg E * PI / 180 in
  let Ex := magnitude E * cos M E_rad in
  let Ey := magnitude E * sin M E_rad in
  let Bz := if angle_deg B =? 90 then magnitude B else - magnitude B in
  let Fx := q this * (Ex + vy this * Bz) in
  let Fy := q this * (Ey - vx this * Bz) in
  {| Fx := Fx; Fy := Fy |}.

(** [update(dt, E, B)], called on [this], with the global [trailLength]. *)
Definition update (M : Math) (trailLength : Capacity) (dt : float)
    (E B : Field) (this : Particle) : Particle :=
  (* k1 *)
  let f1 := calculateForce M this E B in
  let ax1 := Fx f1 / m this in
  let ay1 := Fy f1 / m this in
  (* k2 *)
  let vx_temp := vx this + ax1 * dt / 2 in
  let vy_temp := vy this + ay1 * dt / 2 in
  let tempParticle := this in
  let tempParticle := set_vx vx_temp tempParticle in
  let tempParticle := set_vy vy_temp tempParticle in
  let f2 := calculateForce M tempParticle E B in
  let ax2 := Fx f2 / m this in
  let ay2 := Fy f2 / m this in
  (* k3 *)
  let vx_temp2 := vx this + ax2 * dt / 2 in
  let vy_temp2 := vy this + ay2 * dt / 2 in
  let tempParticle := set_vx vx_temp2 tempParticle in
  let tempParticle := set_vy vy_temp2 tempParticle in
  let f3 := calculateForce M tempParticle E B in
  let ax3 := Fx f3 / m this in
  let ay3 := Fy f3 / m this in
  (* k4 *)
  let vx_temp3 := vx this + ax3 * dt in
  let vy_temp3 := vy this + ay3 * dt in
  let tempParticle := set_vx vx_temp3 tempParticle in
  let tempParticle := set_vy vy_temp3 tempParticle in
  let f4 := calculateForce M tempParticle E B in
  let ax4 := Fx f4 / m this in
  let ay4 := Fy f4 / m this in
  (* the update *)
  let ax := (ax1 + 2 * ax2 + 2 * ax3 + ax4) / 6 in
  let ay := (ay1 + 2 * ay2 + 2 * ay3 + ay4) / 6 in
  let this := set_vx (vx this + ax * dt) this in
  let this := set_vy (vy this + ay * dt) this in
  let this := set_x (x this + vx this * dt) this in
  let this := set_y (y this + vy this * dt) this in
  (* the trail *)
  let this := set_trail (push (trail this) {| pt_x := x this; pt_y := y this |}) this in
  if exceeds (List.length (trail this)) trailLength
  then set_trail (shift (trail this)) this
  else this.

(** [n] calls of [update] on one particle, with the same arguments. *)
Definition steps (M : Math) (n : nat) (trailLength : Capacity) (dt : float)
    (E B : Field) (p : Particle) : Particle :=
  Nat.iter n (update M trailLength dt E B) p.

(** The values that ECMAScript fixes: [Math.cos] of a zero is 1 and
    [Math.sin] of a zero is that zero.  Elsewhere the standard leaves the
    result to the implementation, and this instance gives [NaN]; it is
    used for fields at the angle 0 only. *)
Definition atZero : Math :=
  {| cos := fun x => if is_zero x then 1 else nan;
     sin := fun x => if is_zero x then x else nan |}.

End Binary64.

(** * Properties *)

(** ** What [update] leaves and what it assigns *)

(** The last two statements of [update], on the particle [moved] that the
    assignments before them leave. *)
Lemma push_and_evict (trailLength : Capacity) (moved : Particle.t) :
  let pushed := Particle.set_trail (push (Particle.trail moved) (position moved)) moved in
  let this' :=
    if exceeds (List.length (Particle.trail pushed)) trailLength
    then Particle.set_trail (shift (Particle.trail pushed)) pushed
    else pushed in
  Particle.trail this' =
    (let tr := push (Particle.trail moved) (position this') in
     if exceeds (List.length tr) trailLength then shift tr else tr).
Proof.
  cbv zeta.
  change (Particle.trail
            (Particle.set_trail (push (Particle.trail moved) (position moved)) moved))
    with (push (Particle.trail moved) (position moved)).
  destruct (exceeds _ trailLength) eqn:Hc;
    change (position _) with (position moved); rewrite Hc; reflexivity.
Qed.

Section UpdateProjections.

Variable trailLength : Capacity.
Variables (dt : R) (E B : Field) (this : Particle.t).

Let this' := Particle.update trailLength dt E B this.

(** The eviction at the end of [update] touches the trail only. *)
Ltac trail_branch :=
  unfold this', Particle.update;
  match goal with
  | |- context [if ?c then _ else _] => destruct c
  end; reflexivity.

Lemma update_id : Particle.id this' = Particle.id this.
Proof. trail_branch. Qed.

Lemma update_q : Particle.q this' = Particle.q this.
Proof. trail_branch. Qed.

Lemma update_m : Particle.m this' = Particle.m this.
Proof. trail_branch. Qed.

Lemma update_selected : Particle.selected this' = Particle.selected this.
Proof. trail_branch. Qed.

Lemma update_position_eq :
  Particle.x this' = Particle.x this + Particle.vx this' * dt /\
  Particle.y this' = Particle.y this + Particle.vy this' * dt.
Proof. split; trail_branch. Qed.

Lemma update_trail :
  Particle.trail this' =
    let pushed := push (Particle.trail this) (position this') in
    if exceeds (List.length pushed) trailLength then shift pushed else pushed.
Proof.
  unfold this', Particle.update. cbv zeta.
  match goal with
  | |- context [if _ then _ else Particle.set_trail _ ?M] =>
      exact (push_and_evict trailLength M)
  end.
Qed.

End UpdateProjections.

(** ** The force law *)

(** C10.  The force computation takes [Bz = +magnitude] when [angle_deg]
    is exactly 90 and [Bz = -magnitude] for every other [angle_deg]
    (270, and also 0, 45, ...): both for the scalar it derives and for the
    force it returns. *)
Theorem Bz_sign_by_exact_angle (this : Particle.t) (E B : Field) :
  (angle_deg B = 90 ->
     Particle.Bz_of B = magnitude B /\
     Particle.calculateForce this E B =
       {| Fx := Particle.q this *
                (magnitude E * cos (angle_deg E * PI / 180)
                 + Particle.vy this * magnitude B);
          Fy := Particle.q this *
                (magnitude E * sin (angle_deg E * PI / 180)
                 - Particle.vx this * magnitude B) |}) /\
  (angle_deg B <> 90 ->
     Particle.Bz_of B = - magnitude B /\
     Particle.calculateForce this E B =
       {| Fx := Particle.q this *
                (magnitude E * cos (angle_deg E * PI / 180)
                 + Particle.vy this * - magnitude B);
          Fy := Particle.q this *
                (magnitude E * sin (angle_deg E * PI / 180)
                 - Particle.vx this * - magnitude B) |}).
Proof.
  unfold Particle.calculateForce, Particle.Bz_of.
  split; intros Hangle; destruct (Req_dec_T (angle_deg B) 90) as [Heq | Hne];
    try contradiction; split; reflexivity.
Qed.

(** The theorem at a field pointing out of the plane (90), into it (270),
    and at an angle that is neither (45). *)
Lemma Bz_sign_by_exact_angle_witness :
  Particle.Bz_of {| magnitude := 2; angle_deg := 90 |} = 2 /\
  Particle.Bz_of {| magnitude := 2; angle_deg := 270 |} = - 2 /\
  Particle.Bz_of {| magnitude := 2; angle_deg := 45 |} = - 2.
Proof.
  pose (this := Particle.constructor "p0" 1 1 0 0 2 0).
  pose (E := {| magnitude := 0; angle_deg := 0 |}).
  split; [| split].
  - apply (Bz_sign_by_exact_angle this E {| magnitude := 2; angle_deg := 90 |}).
    reflexivity.
  - apply (Bz_sign_by_exact_angle this E {| magnitude := 2; angle_deg := 270 |}).
    cbn. lra.
  - apply (Bz_sign_by_exact_angle this E {| magnitude := 2; angle_deg := 45 |}).
    cbn. lra.
Defined.

(** C2.  [calculateForce] returns exactly
    [Fx = q (E cos (theta_d pi / 180) + vy Bz)] and
    [Fy = q (E sin (theta_d pi / 180) - vx Bz)], with [Bz] the signed
    scalar of the magnetic field.  It is a function of the charge, the
    velocity and the two fields: particles that agree on charge and
    velocity get the same force, whatever their mass, position, trail,
    id and selection. *)
Theorem calculateForce_lorentz (this : Particle.t) (E B : Field) :
  Fx (Particle.calculateForce this E B) =
    Particle.q this *
    (magnitude E * cos (angle_deg E * PI / 180)
     + Particle.vy this * Particle.Bz_of B) /\
  Fy (Particle.calculateForce this E B) =
    Particle.q this *
    (magnitude E * sin (angle_deg E * PI / 180)
     - Particle.vx this * Particle.Bz_of B) /\
  (forall other : Particle.t,
     Particle.q other = Particle.q this ->
     Particle.vx other = Particle.vx this ->
     Particle.vy other = Particle.vy this ->
     Particle.calculateForce other E B = Particle.calculateForce this E B).
Proof.
  repeat split.
  intros other Hq Hvx Hvy. unfold Particle.calculateForce.
  rewrite Hq, Hvx, Hvy. reflexivity.
Qed.

(** The theorem at two particles of equal charge and velocity and different
    mass, position, trail, id and selection. *)
Lemma calculateForce_lorentz_witness :
  let E := {| magnitude := 3; angle_deg := 30 |} in
  let B := {| magnitude := 2; angle_deg := 90 |} in
  let this := Particle.constructor "p0" 1 1 0 0 2 5 in
  let other :=
    {| Particle.id := "p1"; Particle.q := 1; Particle.m := 7;
       Particle.x := 4; Particle.y := -4; Particle.vx := 2; Particle.vy := 5;
       Particle.trail := [ {| pt_x := 0; pt_y := 0 |} ];
       Particle.selected := true |} in
  Particle.calculateForce other E B = Particle.calculateForce this E B.
Proof.
  intros E B this other.
  apply (calculateForce_lorentz this E B); reflexivity.
Defined.

(** ** The integrator step *)

(** The velocity [update] leaves, in the arithmetic of the source: the four
    accelerations are [calculateForce] over the mass at the velocity of the
    particle and at the three trial velocities. *)
Lemma update_stages (trailLength : Capacity) (dt : R) (E B : Field)
    (p : Particle.t) :
  let a := acceleration p E B in
  let k1 := a (Particle.vx p, Particle.vy p) in
  let k2 := a (Particle.vx p + fst k1 * dt / 2, Particle.vy p + snd k1 * dt / 2) in
  let k3 := a (Particle.vx p + fst k2 * dt / 2, Particle.vy p + snd k2 * dt / 2) in
  let k4 := a (Particle.vx p + fst k3 * dt, Particle.vy p + snd k3 * dt) in
  Particle.vx (Particle.update trailLength dt E B p) =
    Particle.vx p + (fst k1 + 2 * fst k2 + 2 * fst k3 + fst k4) / 6 * dt /\
  Particle.vy (Particle.update trailLength dt E B p) =
    Particle.vy p + (snd k1 + 2 * snd k2 + 2 * snd k3 + snd k4) / 6 * dt.
Proof.
  unfold Particle.update.
  match goal with
  | |- context [if ?c then _ else _] => destruct c
  end; split; reflexivity.
Qed.

(** The velocity and the position [update] leaves are those of the scheme
    of the specification, whatever the mass. *)
Lemma update_is_rk4 (trailLength : Capacity) (dt : R) (E B : Field)
    (p : Particle.t) :
  let p' := Particle.update trailLength dt E B p in
  (Particle.vx p', Particle.vy p') = rk4_velocity p dt E B /\
  (Particle.x p', Particle.y p') = rk4_position p dt E B.
Proof.
  cbv zeta.
  assert (Hv : (Particle.vx (Particle.update trailLength dt E B p),
                Particle.vy (Particle.update trailLength dt E B p))
               = rk4_velocity p dt E B).
  { destruct (update_stages trailLength dt E B p) as [Hvx Hvy].
    cbv zeta in Hvx, Hvy. rewrite Hvx, Hvy. clear Hvx Hvy.
    unfold rk4_velocity. cbv zeta.
    generalize (acceleration p E B). intros a.
    generalize (a (Particle.vx p, Particle.vy p)). intros k1.
    replace (vadd (Particle.vx p, Particle.vy p) (vscale (dt / 2) k1))
      with (Particle.vx p + fst k1 * dt / 2, Particle.vy p + snd k1 * dt / 2)
      by (unfold vadd, vscale; cbn [fst snd]; f_equal; field).
    generalize (a (Particle.vx p + fst k1 * dt / 2,
                   Particle.vy p + snd k1 * dt / 2)). intros k2.
    replace (vadd (Particle.vx p, Particle.vy p) (vscale (dt / 2) k2))
      with (Particle.vx p + fst k2 * dt / 2, Particle.vy p + snd k2 * dt / 2)
      by (unfold vadd, vscale; cbn [fst snd]; f_equal; field).
    generalize (a (Particle.vx p + fst k2 * dt / 2,
                   Particle.vy p + snd k2 * dt / 2)). intros k3.
    replace (vadd (Particle.vx p, Particle.vy p) (vscale dt k3))
      with (Particle.vx p + fst k3 * dt, Particle.vy p + snd k3 * dt)
      by (unfold vadd, vscale; cbn [fst snd]; f_equal; ring).
    generalize (a (Particle.vx p + fst k3 * dt, Particle.vy p + snd k3 * dt)).
    intros k4.
    unfold vadd, vscale; cbn [fst snd]; f_equal; field. }
  split; [exact Hv |].
  destruct (update_position_eq trailLength dt E B p) as [Hx Hy].
  rewrite Hx, Hy. unfold rk4_position. rewrite <- Hv.
  unfold vadd, vscale; cbn [fst snd]; f_equal; ring.
Qed.

(** C1.  For a particle of positive mass, one call of [update] takes the
    velocity and the position to those of the velocity-only RK4 scheme:
    [k1 = a(v0)], [k2 = a(v0 + k1 dt/2)], [k3 = a(v0 + k2 dt/2)],
    [k4 = a(v0 + k3 dt)], [v1 = v0 + dt (k1 + 2 k2 + 2 k3 + k4) / 6], and
    then [x1 = x0 + v1 dt] with the new velocity [v1]. *)
Theorem update_velocity_only_rk4 (trailLength : Capacity) (dt : R)
    (E B : Field) (p : Particle.t) :
  0 < Particle.m p ->
  let p' := Particle.update trailLength dt E B p in
  (Particle.vx p', Particle.vy p') = rk4_velocity p dt E B /\
  (Particle.x p', Particle.y p') = rk4_position p dt E B /\
  Particle.x p' = Particle.x p + Particle.vx p' * dt /\
  Particle.y p' = Particle.y p + Particle.vy p' * dt.
Proof.
  intros _ p'.
  destruct (update_is_rk4 trailLength dt E B p) as [Hv Hx].
  destruct (update_position_eq trailLength dt E B p) as [Hpx Hpy].
  repeat split; assumption.
Qed.

(** The theorem at the circular-motion preset: charge 1, mass 1, velocity
    (2, 0), no electric field, magnetic field 1 out of the plane. *)
Lemma update_velocity_only_rk4_witness :
  let E := {| magnitude := 0; angle_deg := 0 |} in
  let B := {| magnitude := 1; angle_deg := 90 |} in
  let p := Particle.constructor "p0" 1 1 0 0 2 0 in
  let p' := Particle.update (Finite 200) (1 / 60) E B p in
  (Particle.vx p', Particle.vy p') = rk4_velocity p (1 / 60) E B /\
  (Particle.x p', Particle.y p') = rk4_position p (1 / 60) E B /\
  Particle.x p' = Particle.x p + Particle.vx p' * (1 / 60) /\
  Particle.y p' = Particle.y p + Particle.vy p' * (1 / 60).
Proof.
  intros E B p.
  apply (update_velocity_only_rk4 (Finite 200) (1 / 60) E B p).
  cbn. lra.
Defined.

(** C9.  [update] assigns the position, the velocity and the trail only:
    the id, the charge, the mass and the selected flag of the particle are
    as before.  The step has the field objects as inputs only, and the
    globals [electricField] and [magneticField] are the same after a manual
    step or a frame as before it. *)
Theorem update_frame (trailLength : Capacity) (dt : R) (E B : Field)
    (p : Particle.t) (s : State) :
  let p' := Particle.update trailLength dt E B p in
  (Particle.id p' = Particle.id p /\
   Particle.q p' = Particle.q p /\
   Particle.m p' = Particle.m p /\
   Particle.selected p' = Particle.selected p) /\
  (electricField (stepSimulation s) = electricField s /\
   magneticField (stepSimulation s) = magneticField s) /\
  (electricField (draw s) = electricField s /\
   magneticField (draw s) = magneticField s).
Proof.
  cbv zeta. split; [| split].
  - repeat split.
    + apply update_id.
    + apply update_q.
    + apply update_m.
    + apply update_selected.
  - split; reflexivity.
  - unfold draw. destruct (isPlaying s); split; reflexivity.
Qed.

(** ** Motion without fields *)

Lemma steps_S (n : nat) (c : Capacity) (dt : R) (E B : Field)
    (p : Particle.t) :
  steps (S n) c dt E B p = Particle.update c dt E B (steps n c dt E B p).
Proof. reflexivity. Qed.

Section ZeroField.

Variable trailLength : Capacity.
Variables (dt : R) (E B : Field).
Hypothesis E_zero : magnitude E = 0.
Hypothesis B_zero : magnitude B = 0.





End ZeroField.



(** The closed form in the arithmetic of the program. *)
Module Binary64Facts.

Import PrimFloat.
Import Binary64.
Local Open Scope float_scope.

(** At a field angle of 0 the force is the same for every [Math.cos] and
    [Math.sin] that have the values ECMAScript fixes at 0. *)
Lemma calculateForce_at_angle_zero (M : Math) (mag : float) (B : Field)
    (this : Particle) :
  cos M 0 = 1 -> sin M 0 = 0 ->
  calculateForce M this {| magnitude := mag; angle_deg := 0 |} B =
    calculateForce atZero this {| magnitude := mag; angle_deg := 0 |} B.
Proof.
  intros Hcos Hsin. unfold calculateForce. cbn [angle_deg magnitude].
  change (0 * PI / 180) with 0. rewrite Hcos, Hsin. reflexivity.
Qed.

Lemma update_at_angle_zero (M : Math) (mag : float) (B : Field)
    (c : Capacity) (dt : float) (p : Particle) :
  cos M 0 = 1 -> sin M 0 = 0 ->
  update M c dt {| magnitude := mag; angle_deg := 0 |} B p =
    update atZero c dt {| magnitude := mag; angle_deg := 0 |} B p.
Proof.
  intros Hcos Hsin. unfold update.
  rewrite !(calculateForce_at_angle_zero M mag B _ Hcos Hsin). reflexivity.
Qed.

(** So a run at a field angle of 0 is the same for every such library. *)
Lemma steps_at_angle_zero (M : Math) (mag : float) (B : Field) (n : nat)
    (c : Capacity) (dt : float) (p : Particle) :
  cos M 0 = 1 -> sin M 0 = 0 ->
  steps M n c dt {| magnitude := mag; angle_deg := 0 |} B p =
    steps atZero n c dt {| magnitude := mag; angle_deg := 0 |} B p.
Proof.
  intros Hcos Hsin. unfold steps.
  generalize (update_at_angle_zero M mag B c dt).
  generalize (update M c dt {| magnitude := mag; angle_deg := 0 |} B).
  generalize (update atZero c dt {| magnitude := mag; angle_deg := 0 |} B).
  intros g f Hfg. induction n as [| n IH]; [reflexivity |].
  rewrite !Nat.iter_succ, IH. apply Hfg; assumption.
Qed.


End Binary64Facts.

(** ** The trail *)

Lemma shift_skipn {A : Type} (k : nat) (l : list A) :
  shift (skipn k l) = skipn (S k) l.
Proof.
  revert l. induction k as [| k IH]; intros [| a l]; try reflexivity.
  cbn [skipn]. rewrite IH. destruct l; reflexivity.
Qed.

Lemma skipn_push {A : Type} (k : nat) (l : list A) (v : A) :
  (k <= List.length l)%nat ->
  push (skipn k l) v = skipn k (push l v).
Proof.
  intros Hk. unfold push. rewrite skipn_app.
  replace (k - List.length l)%nat with 0%nat by lia. reflexivity.
Qed.

Lemma positions_S (n : nat) (c : Capacity) (dt : R) (E B : Field)
    (p : Particle.t) :
  positions (S n) c dt E B p =
    push (positions n c dt E B p) (position (steps (S n) c dt E B p)).
Proof.
  unfold positions, push. rewrite seq_S, map_app. reflexivity.
Qed.

Lemma positions_length (n : nat) (c : Capacity) (dt : R) (E B : Field)
    (p : Particle.t) :
  List.length (positions n c dt E B p) = n.
Proof. unfold positions. rewrite length_map, length_seq. reflexivity. Qed.

Lemma update_trail_evict (c : Capacity) (dt : R) (E B : Field)
    (p : Particle.t) :
  Particle.trail (Particle.update c dt E B p) =
    evict c (push (Particle.trail p) (position (Particle.update c dt E B p))).
Proof. apply update_trail. Qed.

(** The length of the trail after a step: one more, unless that exceeds
    the capacity. *)
Lemma update_trail_length (c : Capacity) (dt : R) (E B : Field)
    (p : Particle.t) :
  List.length (Particle.trail (Particle.update c dt E B p)) =
    if exceeds (S (List.length (Particle.trail p))) c
    then List.length (Particle.trail p)
    else S (List.length (Particle.trail p)).
Proof.
  rewrite update_trail_evict. unfold evict, push, shift.
  rewrite length_app, Nat.add_1_r.
  destruct (exceeds _ c); [| rewrite length_app, Nat.add_1_r; reflexivity].
  destruct (Particle.trail p); cbn; [reflexivity |].
  rewrite length_app, Nat.add_1_r. reflexivity.
Qed.

(** With unbounded capacity the trail grows by the positions of the run. *)
Lemma steps_trail_unbounded (n : nat) (dt : R) (E B : Field) (p : Particle.t) :
  Particle.trail (steps n Infinity dt E B p) =
    Particle.trail p ++ positions n Infinity dt E B p.
Proof.
  induction n as [| n IH].
  - cbn. rewrite app_nil_r. reflexivity.
  - rewrite positions_S, steps_S, update_trail_evict, <- steps_S, IH.
    unfold evict, push. cbn [exceeds]. rewrite app_assoc. reflexivity.
Qed.

(** With a fixed capacity [L >= 0], a trail that starts within it is, after
    the run, the last [L] entries of the old trail followed by the
    positions of the run (all of them while they are fewer than [L]). *)
Lemma steps_trail_bounded (n : nat) (L : Z) (dt : R) (E B : Field)
    (p : Particle.t) :
  (0 <= L)%Z ->
  withinCapacity (Finite L) p = true ->
  Particle.trail (steps n (Finite L) dt E B p) =
    skipn (List.length (Particle.trail p) + n - Z.to_nat L)
          (Particle.trail p ++ positions n (Finite L) dt E B p).
Proof.
  intros HL Hp. unfold withinCapacity in Hp. cbn [exceeds] in Hp.
  apply negb_true_iff, Z.ltb_ge in Hp.
  induction n as [| n IH].
  - cbn [steps Nat.iter positions seq map]. rewrite app_nil_r.
    replace (_ + 0 - _)%nat with 0%nat by lia. reflexivity.
  - rewrite positions_S, steps_S, update_trail_evict, <- steps_S, IH.
    set (T := Particle.trail p ++ positions n (Finite L) dt E B p).
    set (v := position (steps (S n) (Finite L) dt E B p)).
    assert (HT : List.length T = (List.length (Particle.trail p) + n)%nat).
    { unfold T. rewrite length_app, positions_length. reflexivity. }
    replace (Particle.trail p ++ push (positions n (Finite L) dt E B p) v)
      with (push T v) by (unfold T, push; rewrite app_assoc; reflexivity).
    rewrite skipn_push by lia.
    unfold evict. rewrite length_skipn. unfold push at 1. rewrite length_app.
    cbn [List.length exceeds]. rewrite HT.
    destruct (L <? _)%Z eqn:Hlt.
    + apply Z.ltb_lt in Hlt. rewrite shift_skipn. f_equal. lia.
    + apply Z.ltb_ge in Hlt. f_equal. lia.
Qed.

Lemma steps_within_capacity (n : nat) (L : Z) (dt : R) (E B : Field)
    (p : Particle.t) :
  (0 <= L)%Z ->
  withinCapacity (Finite L) p = true ->
  withinCapacity (Finite L) (steps n (Finite L) dt E B p) = true.
Proof.
  intros HL Hp. unfold withinCapacity.
  rewrite (steps_trail_bounded n L dt E B p HL Hp).
  unfold withinCapacity in Hp. cbn [exceeds] in *.
  apply negb_true_iff, Z.ltb_ge in Hp. apply negb_true_iff, Z.ltb_ge.
  rewrite length_skipn, length_app, positions_length. lia.
Qed.

(** A trail above the capacity has the same length after a step: one
    entry is pushed and one is evicted. *)
Lemma update_over_capacity (c : Capacity) (dt : R) (E B : Field)
    (p : Particle.t) :
  withinCapacity c p = false ->
  List.length (Particle.trail (Particle.update c dt E B p)) =
    List.length (Particle.trail p).
Proof.
  unfold withinCapacity. intros Hover. apply negb_false_iff in Hover.
  rewrite update_trail_length. destruct c as [L |]; [| discriminate].
  cbn [exceeds] in *. apply Z.ltb_lt in Hover.
  replace (L <? Z.of_nat (S (List.length (Particle.trail p))))%Z with true;
    [reflexivity |].
  symmetry. apply Z.ltb_lt. lia.
Qed.

(** What the state functions do to the particle array and the capacity. *)
Lemma stepSimulation_particles (s : State) :
  particles (stepSimulation s) =
    map (Particle.update (trailLength s) (1 / 60 * timeScale s)
           (electricField s) (magneticField s))
        (particles s).
Proof. reflexivity. Qed.

Lemma stepSimulation_trailLength (s : State) :
  trailLength (stepSimulation s) = trailLength s.
Proof. reflexivity. Qed.

Lemma setTrailLength_particles (c : Capacity) (s : State) :
  particles (setTrailLength c s) = particles s.
Proof. reflexivity. Qed.

Lemma setTrailLength_trailLength (c : Capacity) (s : State) :
  trailLength (setTrailLength c s) = c.
Proof. reflexivity. Qed.

Lemma stepSimulation_trailsBounded (s : State) (L : Z) :
  (0 <= L)%Z ->
  trailLength s = Finite L ->
  trailsBounded s = true ->
  trailsBounded (stepSimulation s) = true.
Proof.
  unfold trailsBounded. intros HL Hcap Hs.
  rewrite stepSimulation_particles, stepSimulation_trailLength, Hcap in *.
  rewrite forallb_forall in *. intros p' Hin.
  apply in_map_iff in Hin. destruct Hin as (p & <- & Hin).
  apply (steps_within_capacity 1 L _ _ _ p HL). apply Hs, Hin.
Qed.

(** C3, the claim as stated fails.  A particle runs three steps at
    capacity 3 and its trail is within capacity; [setTrailLength(1)] leaves
    the trail at length 3, above the capacity, and the next step pushes one
    entry and evicts one, so the trail is still of length 3. *)
Lemma trail_bound_lost_on_lower_capacity :
  let s0 := setTrailLength (Finite 3) (addParticle 1 1 2 0 initialState) in
  let s3 := stepSimulation (stepSimulation (stepSimulation s0)) in
  let s4 := stepSimulation (setTrailLength (Finite 1) s3) in
  trailsBounded s3 = true /\
  trailsBounded (setTrailLength (Finite 1) s3) = false /\
  trailsBounded s4 = false /\
  map (fun p => List.length (Particle.trail p)) (particles s4) = [3%nat].
Proof.
  cbv zeta. unfold trailsBounded.
  rewrite !stepSimulation_particles, !stepSimulation_trailLength,
    !setTrailLength_particles, !setTrailLength_trailLength,
    !stepSimulation_particles, !stepSimulation_trailLength,
    !setTrailLength_particles, !setTrailLength_trailLength.
  cbn [addParticle initialState particles set_particles set_particleIdCounter
       push app map forallb withinCapacity].
  rewrite !update_trail_length.
  cbn [Particle.constructor Particle.trail List.length exceeds].
  repeat split; reflexivity.
Qed.

(** C3, amended.  Each step pushes exactly one entry, the position after
    the step, and then evicts the oldest entry if the length exceeds the
    capacity.  At a fixed capacity [L >= 0] a trail within the capacity
    stays within it, for one particle over any run and for all the
    particles of the state over a manual step; [setTrailLength] assigns the
    capacity and nothing else, so it leaves the trails as they are.  From
    an empty trail at a fixed capacity [L >= 0], after [N > L] steps the
    trail has length [L] and is the last [L] positions of the run, oldest
    first; at capacity [Infinity] it is all [N] positions and nothing is
    evicted. *)
Theorem trail_bounded_at_fixed_capacity (dt : R) (E B : Field)
    (p : Particle.t) (L : Z) (N : nat) :
  (forall c p1,
     Particle.trail (Particle.update c dt E B p1) =
       evict c (push (Particle.trail p1)
                  (position (Particle.update c dt E B p1)))) /\
  ((0 <= L)%Z ->
   withinCapacity (Finite L) p = true ->
   withinCapacity (Finite L) (steps N (Finite L) dt E B p) = true) /\
  (forall s, (0 <= L)%Z -> trailLength s = Finite L ->
     trailsBounded s = true ->
     trailsBounded (stepSimulation s) = true) /\
  (forall c s,
     setTrailLength c s =
       {| particles := particles s;
          particleIdCounter := particleIdCounter s;
          simulationTime := simulationTime s;
          isPlaying := isPlaying s;
          timeScale := timeScale s;
          trailLength := c;
          electricField := electricField s;
          magneticField := magneticField s;
          measureMode := measureMode s;
          measureStart := measureStart s;
          measureEnd := measureEnd s;
          measuring := measuring s |}) /\
  ((0 <= L)%Z -> Particle.trail p = [] -> (L < Z.of_nat N)%Z ->
     Z.of_nat (List.length (Particle.trail (steps N (Finite L) dt E B p))) = L /\
     Particle.trail (steps N (Finite L) dt E B p) =
       skipn (N - Z.to_nat L) (positions N (Finite L) dt E B p)) /\
  (Particle.trail p = [] ->
     List.length (Particle.trail (steps N Infinity dt E B p)) = N /\
     Particle.trail (steps N Infinity dt E B p) =
       positions N Infinity dt E B p).
Proof.
  repeat apply conj.
  - intros c p1. apply update_trail_evict.
  - apply steps_within_capacity.
  - intros s HL Hcap. apply (stepSimulation_trailsBounded s L HL Hcap).
  - reflexivity.
  - intros HL Hempty HN.
    assert (Hp : withinCapacity (Finite L) p = true).
    { unfold withinCapacity. rewrite Hempty. cbn.
      apply negb_true_iff, Z.ltb_ge. exact HL. }
    rewrite (steps_trail_bounded N L dt E B p HL Hp), Hempty.
    cbn [List.length app Nat.add]. split; [| reflexivity].
    rewrite length_skipn, positions_length. lia.
  - intros Hempty. rewrite steps_trail_unbounded, Hempty. cbn [app].
    split; [apply positions_length | reflexivity].
Qed.

(** The theorem at capacity 2 and a run of 3 steps of the circular-motion
    preset: the trail is the positions after the steps 2 and 3. *)
Lemma trail_bounded_at_fixed_capacity_witness :
  let E := {| magnitude := 0; angle_deg := 0 |} in
  let B := {| magnitude := 1; angle_deg := 90 |} in
  let p := Particle.constructor "p0" 1 1 0 0 2 0 in
  Z.of_nat (List.length (Particle.trail (steps 3 (Finite 2) (1 / 60) E B p))) = 2%Z /\
  Particle.trail (steps 3 (Finite 2) (1 / 60) E B p) =
    [ position (steps 2 (Finite 2) (1 / 60) E B p);
      position (steps 3 (Finite 2) (1 / 60) E B p) ].
Proof.
  intros E B p.
  destruct (trail_bounded_at_fixed_capacity (1 / 60) E B p 2 3)
    as (_ & _ & _ & _ & Hlast & _).
  apply Hlast.
  - lia.
  - reflexivity.
  - cbn. lia.
Defined.

(** ** The clock *)

(** C5.  [stepSimulation] computes [dt = (1/60) timeScale], replaces every
    particle by its update with the current fields and capacity, adds [dt]
    to [simulationTime] and assigns nothing else, [isPlaying] included; it
    does the same whatever [isPlaying] is.  A frame with [isPlaying] true
    is the same transformation, and a frame with [isPlaying] false leaves
    the state as it is. *)
Theorem stepSimulation_is_one_playing_frame (s : State) :
  stepSimulation s =
    {| particles :=
         map (Particle.update (trailLength s) (1 / 60 * timeScale s)
                (electricField s) (magneticField s))
             (particles s);
       particleIdCounter := particleIdCounter s;
       simulationTime := simulationTime s + 1 / 60 * timeScale s;
       isPlaying := isPlaying s;
       timeScale := timeScale s;
       trailLength := trailLength s;
       electricField := electricField s;
       magneticField := magneticField s;
       measureMode := measureMode s;
       measureStart := measureStart s;
       measureEnd := measureEnd s;
       measuring := measuring s |} /\
  (forall b : bool,
     stepSimulation (set_isPlaying b s) = set_isPlaying b (stepSimulation s)) /\
  draw (set_isPlaying true s) = stepSimulation (set_isPlaying true s) /\
  draw (set_isPlaying false s) = set_isPlaying false s /\
  draw s = (if isPlaying s then stepSimulation s else s).
Proof.
  repeat split.
Qed.

(** C6.  [resetSimulation] sets [simulationTime] to 0 and empties every
    trail.  The particle array has the same particles in the same order,
    each with its id, charge, mass, position, velocity and selected flag;
    every other global is as before. *)
Theorem resetSimulation_frame (s : State) :
  simulationTime (resetSimulation s) = 0 /\
  Forall2
    (fun p p' =>
       Particle.trail p' = [] /\
       Particle.id p' = Particle.id p /\
       Particle.q p' = Particle.q p /\
       Particle.m p' = Particle.m p /\
       Particle.x p' = Particle.x p /\
       Particle.y p' = Particle.y p /\
       Particle.vx p' = Particle.vx p /\
       Particle.vy p' = Particle.vy p /\
       Particle.selected p' = Particle.selected p)
    (particles s) (particles (resetSimulation s)) /\
  particleIdCounter (resetSimulation s) = particleIdCounter s /\
  isPlaying (resetSimulation s) = isPlaying s /\
  timeScale (resetSimulation s) = timeScale s /\
  trailLength (resetSimulation s) = trailLength s /\
  electricField (resetSimulation s) = electricField s /\
  magneticField (resetSimulation s) = magneticField s /\
  measureMode (resetSimulation s) = measureMode s /\
  measureStart (resetSimulation s) = measureStart s /\
  measureEnd (resetSimulation s) = measureEnd s /\
  measuring (resetSimulation s) = measuring s.
Proof.
  split; [reflexivity |]. split; [| repeat split].
  unfold resetSimulation. cbn [particles set_particles set_simulationTime].
  induction (particles s) as [| p ps IH]; cbn [map]; constructor.
  - repeat split.
  - exact IH.
Qed.

(** ** Adding particles *)

Lemma spawn_point :
  screenToWorld (CANVAS_WIDTH / 2) (CANVAS_HEIGHT / 2) = {| pt_x := 0; pt_y := 0 |}.
Proof.
  unfold screenToWorld, CANVAS_WIDTH, CANVAS_HEIGHT, SCALE. f_equal; lra.
Qed.

(** C8, the claim as stated fails.  [addParticle] called with mass 0, and
    with mass -1, puts a particle of that mass in the array. *)
Lemma addParticle_accepts_nonpositive_mass :
  map Particle.m (particles (addParticle 1 0 1 0 initialState)) = [0] /\
  map Particle.m (particles (addParticle 1 (-1) 1 0 initialState)) = [-1].
Proof. split; reflexivity. Qed.

(** C8, amended.  The mass is checked by the add-particle click handler,
    not by [addParticle].  The handler alerts and leaves the state as it is
    when an input is [NaN] and when the mass is not positive, and otherwise
    calls [addParticle].  Every call of [addParticle], whatever the mass,
    appends exactly one particle, at the world origin, with the given
    charge, mass and velocity, an empty trail, not selected, named by the
    id counter, which it increments; it assigns nothing else. *)
Theorem addParticle_guarded_by_click_handler (q m vx vy : R) (s : State) :
  addParticle q m vx vy s =
    {| particles :=
         particles s ++
         [ {| Particle.id := "p" ++ decimal (particleIdCounter s);
              Particle.q := q; Particle.m := m;
              Particle.x := 0; Particle.y := 0;
              Particle.vx := vx; Particle.vy := vy;
              Particle.trail := []; Particle.selected := false |} ];
       particleIdCounter := S (particleIdCounter s);
       simulationTime := simulationTime s;
       isPlaying := isPlaying s;
       timeScale := timeScale s;
       trailLength := trailLength s;
       electricField := electricField s;
       magneticField := magneticField s;
       measureMode := measureMode s;
       measureStart := measureStart s;
       measureEnd := measureEnd s;
       measuring := measuring s |} /\
  (m <= 0 ->
     fst (addParticleClick (Some q) (Some m) (Some vx) (Some vy) s) = s /\
     snd (addParticleClick (Some q) (Some m) (Some vx) (Some vy) s) <> None) /\
  (0 < m ->
     addParticleClick (Some q) (Some m) (Some vx) (Some vy) s =
       (addParticle q m vx vy s, None)) /\
  (forall oq om ovx ovy,
     oq = None \/ om = None \/ ovx = None \/ ovy = None ->
     fst (addParticleClick oq om ovx ovy s) = s /\
     snd (addParticleClick oq om ovx ovy s) <> None).
Proof.
  repeat apply conj.
  - unfold addParticle. rewrite spawn_point. reflexivity.
  - intros Hm. unfold addParticleClick.
    destruct (Rle_dec m 0); [| contradiction].
    split; [reflexivity | discriminate].
  - intros Hm. unfold addParticleClick.
    destruct (Rle_dec m 0); [lra | reflexivity].
  - intros oq om ovx ovy Hnan.
    destruct oq, om, ovx, ovy; cbn [addParticleClick fst snd];
      solve [ split; [reflexivity | discriminate]
            | destruct Hnan as [H | [H | [H | H]]]; discriminate ].
Qed.

(** The theorem at the default inputs of the form (charge 1, mass 1,
    velocity (1, 0)), at mass 0, and at an unreadable mass. *)
Lemma addParticle_guarded_by_click_handler_witness :
  addParticleClick (Some 1) (Some 1) (Some 1) (Some 0) initialState =
    (addParticle 1 1 1 0 initialState, None) /\
  fst (addParticleClick (Some 1) (Some 0) (Some 1) (Some 0) initialState) =
    initialState /\
  fst (addParticleClick (Some 1) None (Some 1) (Some 0) initialState) =
    initialState.
Proof.
  split; [| split].
  - destruct (addParticle_guarded_by_click_handler 1 1 1 0 initialState)
      as (_ & _ & Hpositive & _).
    apply Hpositive. lra.
  - destruct (addParticle_guarded_by_click_handler 1 0 1 0 initialState)
      as (_ & Hrejected & _).
    apply Hrejected. lra.
  - destruct (addParticle_guarded_by_click_handler 1 1 1 0 initialState)
      as (_ & _ & _ & Hnan).
    apply (Hnan (Some 1) None (Some 1) (Some 0)).
    right; left; reflexivity.
Defined.

(** ** Scene import *)

(** The particle loop assigns the particle array only, and throws exactly
    when an entry is not an object. *)
Lemma forEach_reconstructParticle (pDatas : list (option Scene.particleT))
    (s : State) :
  fst (forEach pDatas reconstructParticle s) =
    set_particles (particles (fst (forEach pDatas reconstructParticle s))) s /\
  (snd (forEach pDatas reconstructParticle s) = None <->
   forallb isObject pDatas = true).
Proof.
  revert s. induction pDatas as [| pData pDatas IH]; intros s.
  - cbn. split; [destruct s; reflexivity | tauto].
  - destruct pData as [pData |].
    + cbn [forEach andThen reconstructParticle withObject assign forallb
           isObject andb].
      match goal with
      | |- context [forEach pDatas reconstructParticle ?s1] =>
          destruct (IH s1) as [Hframe Hthrow];
          destruct (forEach pDatas reconstructParticle s1) as [s2 [e |]] eqn:Hloop
      end; cbn [fst snd] in *; (split; [| exact Hthrow]);
        rewrite Hframe at 1; reflexivity.
    + cbn. split; [destruct s; reflexivity |].
      split; discriminate.
Qed.

(** The import, once the fields and the particle array are found. *)
Lemma importScene_after_fields (scene : Scene.t) (f : Scene.fieldsT)
    (E B : Field) (pDatas : list (option Scene.particleT)) (s : State) :
  Scene.fields scene = Some f ->
  Scene.E f = Some E -> Scene.B f = Some B ->
  Scene.particles scene = Some pDatas ->
  importScene (Some scene) s =
    match forEach pDatas reconstructParticle
            (clearParticles
               (setMagneticField (magnitude B) (angle_deg B)
                  (setElectricField (magnitude E) (angle_deg E) s))) with
    | (s', None) =>
        (setTrailLength (Finite (orDefaultZ (Scene.trailLength scene) 200))
           (setTimeScale (orDefault (Scene.timeScale scene) 1)
              (set_simulationTime (orDefault (Scene.simulationTime scene) 0) s')),
         false)
    | (s', Some _) => (s', true)
    end.
Proof.
  intros Hf HE HB Hp. unfold importScene, importSceneTry.
  rewrite Hf. cbn [withObject]. rewrite HE, HB, Hp.
  unfold andThen, withObject, assign.
  destruct (forEach pDatas reconstructParticle _) as [s' [e |]]; reflexivity.
Qed.

(** C7, the claim as stated fails.  The document has its [fields] and no
    [particles] array.  The import alerts, yet the fields of the document
    have replaced those of the state and the particle of the state is
    gone. *)
Lemma importScene_not_atomic :
  let s := addParticle 1 1 2 0 initialState in
  let scene :=
    {| Scene.fields :=
         Some {| Scene.E := Some {| magnitude := 5; angle_deg := 30 |};
                 Scene.B := Some {| magnitude := 2; angle_deg := 270 |} |};
       Scene.particles := None;
       Scene.simulationTime := None;
       Scene.timeScale := None;
       Scene.trailLength := None |} in
  wellFormed (Some scene) = false /\
  snd (importScene (Some scene) s) = true /\
  fst (importScene (Some scene) s) <> s /\
  electricField (fst (importScene (Some scene) s)) =
    {| magnitude := 5; angle_deg := 30 |} /\
  magneticField (fst (importScene (Some scene) s)) =
    {| magnitude := 2; angle_deg := 270 |} /\
  particles (fst (importScene (Some scene) s)) = [] /\
  List.length (particles s) = 1%nat.
Proof.
  cbv zeta. repeat apply conj; try reflexivity.
  intros Heq. apply (f_equal (fun st => List.length (particles st))) in Heq.
  discriminate Heq.
Qed.

(** ** Scene documents of any shape *)

Lemma reading_member (v : option JSON) (key : string)
    (k : option JSON -> Action) :
  reading v key k = if present v then k (member v key) else throwA TypeError.
Proof. destruct v as [[] |]; reflexivity. Qed.

(** The callback throws on [null] only; on any other entry it pushes a
    particle. *)
Lemma reconstructParticleJSON_entry (pData : JSON) (st : option State) :
  reconstructParticleJSON pData st =
    if present (Some pData)
    then (match st, entryParticle pData with
          | Some s, Some p => Some (set_particles (push (particles s) p) s)
          | _, _ => None
          end, None)
    else (st, Some TypeError).
Proof.
  unfold reconstructParticleJSON.
  repeat (rewrite reading_member; cbv beta).
  destruct (present (Some pData)); [| reflexivity].
  unfold assignA, entryParticle.
  cbv zeta.
  destruct (asString (member (Some pData) "id")),
    (asNumber (member (Some pData) "q")), (asNumber (member (Some pData) "m")),
    (asNumber (member (Some pData) "x")), (asNumber (member (Some pData) "y")),
    (asNumber (member (Some pData) "vx")),
    (asNumber (member (Some pData) "vy")); reflexivity.
Qed.

(** The particle loop on an array of any entries: the entries before the
    first [null] are pushed, and the loop throws when there is a
    [null]. *)
Lemma forEachA_reconstructParticleJSON (pDatas : list JSON)
    (st : option State) :
  forEachA pDatas reconstructParticleJSON st =
    (pushEntries (beforeNull pDatas) st,
     if forallb (fun pData => present (Some pData)) pDatas
     then None else Some TypeError).
Proof.
  revert st. induction pDatas as [| pData pDatas IH]; intros st.
  - reflexivity.
  - cbn [forEachA andThenA beforeNull forallb]. unfold andThenA.
    rewrite reconstructParticleJSON_entry.
    destruct (present (Some pData)); [| reflexivity].
    rewrite IH. reflexivity.
Qed.

Lemma pushEntries_None (pDatas : list JSON) : pushEntries pDatas None = None.
Proof. induction pDatas as [| pData pDatas IH]; [reflexivity | exact IH]. Qed.

Lemma entryParticle_particleJSON (pData : Scene.particleT) :
  entryParticle (particleJSON pData) = Some (particleOf pData).
Proof. reflexivity. Qed.

(** Complete entries are pushed in order. *)
Lemma pushEntries_complete (pDatas : list Scene.particleT) (s : State) :
  pushEntries (map particleJSON pDatas) (Some s) =
    Some (set_particles (particles s ++ map particleOf pDatas) s).
Proof.
  revert s. induction pDatas as [| pData pDatas IH]; intros s.
  - cbn. rewrite app_nil_r. destruct s; reflexivity.
  - cbn [map pushEntries]. rewrite entryParticle_particleJSON, IH.
    unfold push. destruct s; cbn. rewrite <- app_assoc. reflexivity.
Qed.

(** An entry without its string or one of its numbers leaves a state that
    the model does not hold. *)
Lemma pushEntries_incomplete (pDatas : list JSON) (pData : JSON)
    (st : option State) :
  In pData pDatas -> entryParticle pData = None ->
  pushEntries pDatas st = None.
Proof.
  revert st. induction pDatas as [| pData' pDatas IH]; intros st Hin Hnone.
  - destruct Hin.
  - cbn [pushEntries]. destruct Hin as [-> | Hin].
    + rewrite Hnone. destruct st; apply pushEntries_None.
    + apply IH; assumption.
Qed.

Lemma beforeNull_all (pDatas : list JSON) :
  forallb (fun pData => present (Some pData)) pDatas = true ->
  beforeNull pDatas = pDatas.
Proof.
  induction pDatas as [| pData pDatas IH]; [reflexivity |].
  cbn [forallb beforeNull]. destruct (present (Some pData)); [| discriminate].
  cbn [andb]. intros H. rewrite (IH H). reflexivity.
Qed.

Lemma beforeNull_complete (pDatas : list Scene.particleT) (rest : list JSON) :
  beforeNull (map particleJSON pDatas ++ JNull :: rest) =
    map particleJSON pDatas /\
  forallb (fun pData => present (Some pData))
    (map particleJSON pDatas ++ JNull :: rest) = false.
Proof.
  induction pDatas as [| pData pDatas [IH1 IH2]]; [split; reflexivity |].
  cbn [map app beforeNull forallb]. rewrite IH1, IH2. split; reflexivity.
Qed.

Lemma otherParameters_no_throw (scene : option JSON) (st : option State) :
  snd (otherParameters scene st) = None /\
  (st = None -> fst (otherParameters scene st) = None).
Proof.
  unfold otherParameters, andThenA, assignA. split; [reflexivity |].
  intros ->. reflexivity.
Qed.

(** The import in terms of the members of the document. *)
Lemma importSceneJSON_members (scene : JSON) (s : State) :
  importSceneJSON (Some scene) s =
    let fields := member (Some scene) "fields" in
    let E := member fields "E" in
    let B := member fields "B" in
    if negb (present fields && present E) then (Some s, true) else
    let st1 :=
      option_map (fun E => setElectricField (magnitude E) (angle_deg E) s)
        (numericField E) in
    if negb (present B) then (st1, true) else
    let st2 :=
      match st1, numericField B with
      | Some s1, Some B =>
          Some (clearParticles (setMagneticField (magnitude B) (angle_deg B) s1))
      | _, _ => None
      end in
    match member (Some scene) "particles" with
    | Some (JArray pDatas) =>
        let st3 := pushEntries (beforeNull pDatas) st2 in
        if forallb (fun pData => present (Some pData)) pDatas
        then (fst (otherParameters (Some scene) st3), false)
        else (st3, true)
    | _ => (st2, true)
    end.
Proof.
  unfold importSceneJSON, importSceneJSONTry. cbv zeta.
  unfold andThenA at 1.
  rewrite reading_member.
  destruct (present (Some scene)) eqn:Hscene.
  2:{ destruct scene; try discriminate Hscene. reflexivity. }
  rewrite !(reading_member (Some scene)), Hscene.
  rewrite (reading_member (member (Some scene) "fields") "E").
  destruct (present (member (Some scene) "fields")) eqn:Hfields;
    [| reflexivity].
  rewrite (reading_member (member (Some scene) "fields") "B").
  rewrite Hfields.
  set (E := member (member (Some scene) "fields") "E").
  set (B := member (member (Some scene) "fields") "B").
  rewrite !(reading_member E).
  destruct (present E) eqn:HE; [| reflexivity].
  cbn [andb negb].
  unfold andThenA at 1.
  rewrite !(reading_member B).
  destruct (present B) eqn:HB.
  2:{ unfold assignA, numericField, throwA.
      destruct (asNumber (member E "magnitude")), (asNumber (member E "angle_deg"));
        reflexivity. }
  cbn [negb].
  unfold andThenA at 1 2.
  unfold assignA, numericField.
  destruct (asNumber (member E "magnitude")) as [Em |],
    (asNumber (member E "angle_deg")) as [Ea |],
    (asNumber (member B "magnitude")) as [Bm |],
    (asNumber (member B "angle_deg")) as [Ba |];
    cbn [option_map magnitude angle_deg];
    (destruct (member (Some scene) "particles") as [[| | | | pDatas |] |];
     try reflexivity;
     rewrite forEachA_reconstructParticleJSON;
     destruct (forallb _ pDatas); [| reflexivity];
     unfold otherParameters, andThenA, assignA;
     match goal with
     | |- context [pushEntries ?l ?st] => destruct (pushEntries l st)
     end;
     repeat match goal with
            | |- context [option_map ?f ?o] => destruct (option_map f o)
            end; reflexivity).
Qed.

Lemma numericField_present (v : option JSON) (F : Field) :
  numericField v = Some F -> present v = true.
Proof. destruct v as [[] |]; try discriminate; reflexivity. Qed.

(** The particle loop assigns the particle array only. *)
Lemma pushEntries_frame (pDatas : list JSON) (st : option State) (s' : State) :
  pushEntries pDatas st = Some s' ->
  exists s, st = Some s /\ s' = set_particles (particles s') s.
Proof.
  revert st. induction pDatas as [| pData pDatas IH]; intros st H.
  - cbn in H. subst st. exists s'. split; [reflexivity |].
    destruct s'; reflexivity.
  - cbn [pushEntries] in H. destruct (IH _ H) as (s1 & Hst & Hs').
    destruct st as [s |]; [| discriminate Hst].
    destruct (entryParticle pData) as [p |]; [| discriminate Hst].
    injection Hst as <-. exists s. split; [reflexivity |].
    rewrite Hs' at 1. reflexivity.
Qed.

(** C7, amended.  The import alerts exactly when the text does not parse,
    when [fields], [fields.E] or [fields.B] is [null] or absent, when
    [particles] is not an array and when an entry of the array is [null].
    Nothing is assigned when the text does not parse and when [fields] or
    [fields.E] is [null] or absent.  A failure found later leaves the
    assignments made before it: with [fields.B] [null] or absent the
    electric field of the document is set; with [particles] not an array
    both fields are set and the particles are cleared; with a [null] entry
    after complete entries, these are reconstructed as well.  An [E] or a
    [B] without its two numbers and an entry that is a number, a string, a
    boolean, an array or an object without its string [id] and its six
    numbers raise no alert: when nothing else fails the import runs to its
    end and stores values that are [undefined] or of another type, a state
    that the model does not hold.  After an alert [simulationTime],
    [timeScale], [trailLength] and [isPlaying] are as before. *)
Theorem importSceneJSON_alerts_on_null_or_absent
    (parsed : option JSON) (s : State) :
  snd (importSceneJSON parsed s) = negb (loadsWithoutAlert parsed) /\
  (parsed = None -> importSceneJSON parsed s = (Some s, true)) /\
  (forall scene, parsed = Some scene ->
     present (member (Some scene) "fields") = false \/
     present (member (member (Some scene) "fields") "E") = false ->
     importSceneJSON parsed s = (Some s, true)) /\
  (forall scene E, parsed = Some scene ->
     numericField (member (member (Some scene) "fields") "E") = Some E ->
     present (member (member (Some scene) "fields") "B") = false ->
     importSceneJSON parsed s =
       (Some (setElectricField (magnitude E) (angle_deg E) s), true)) /\
  (forall scene E B, parsed = Some scene ->
     numericField (member (member (Some scene) "fields") "E") = Some E ->
     numericField (member (member (Some scene) "fields") "B") = Some B ->
     (forall pDatas, member (Some scene) "particles" <> Some (JArray pDatas)) ->
     importSceneJSON parsed s =
       (Some (clearParticles
                (setMagneticField (magnitude B) (angle_deg B)
                   (setElectricField (magnitude E) (angle_deg E) s))), true)) /\
  (forall scene E B pDatas rest, parsed = Some scene ->
     numericField (member (member (Some scene) "fields") "E") = Some E ->
     numericField (member (member (Some scene) "fields") "B") = Some B ->
     member (Some scene) "particles" =
       Some (JArray (map particleJSON pDatas ++ JNull :: rest)) ->
     importSceneJSON parsed s =
       (Some (set_particles (map particleOf pDatas)
                (clearParticles
                   (setMagneticField (magnitude B) (angle_deg B)
                      (setElectricField (magnitude E) (angle_deg E) s)))),
        true)) /\
  (forall scene, parsed = Some scene ->
     loadsWithoutAlert parsed = true ->
     numericField (member (member (Some scene) "fields") "E") = None \/
     numericField (member (member (Some scene) "fields") "B") = None \/
     (exists pDatas pData,
        member (Some scene) "particles" = Some (JArray pDatas) /\
        In pData pDatas /\ entryParticle pData = None) ->
     importSceneJSON parsed s = (None, false)) /\
  (forall s', importSceneJSON parsed s = (Some s', true) ->
     simulationTime s' = simulationTime s /\
     timeScale s' = timeScale s /\
     trailLength s' = trailLength s /\
     isPlaying s' = isPlaying s).
Proof.
  repeat apply conj.
  - destruct parsed as [scene |]; [| reflexivity].
    rewrite importSceneJSON_members. unfold loadsWithoutAlert. cbv zeta.
    destruct (present (member (Some scene) "fields")); [| reflexivity].
    destruct (present (member (member (Some scene) "fields") "E"));
      [| reflexivity].
    destruct (present (member (member (Some scene) "fields") "B"));
      [| reflexivity].
    cbn [andb negb].
    destruct (member (Some scene) "particles") as [[| | | | pDatas |] |];
      try reflexivity.
    destruct (forallb _ pDatas); reflexivity.
  - intros ->. reflexivity.
  - intros scene -> H. rewrite importSceneJSON_members. cbv zeta.
    destruct H as [H | H]; rewrite H; [| rewrite andb_false_r]; reflexivity.
  - intros scene E -> HE HB. rewrite importSceneJSON_members. cbv zeta.
    rewrite (numericField_present _ _ HE), HE, HB.
    destruct (present (member (Some scene) "fields")) eqn:Hf; [reflexivity |].
    destruct (member (Some scene) "fields") as [[] |]; discriminate.
  - intros scene E B -> HE HB Hp. rewrite importSceneJSON_members. cbv zeta.
    rewrite (numericField_present _ _ HE), (numericField_present _ _ HB), HE, HB.
    destruct (present (member (Some scene) "fields")) eqn:Hf.
    2:{ destruct (member (Some scene) "fields") as [[] |]; discriminate. }
    cbn [andb negb option_map].
    destruct (member (Some scene) "particles") as [[| | | | pDatas |] |] eqn:Hps;
      try reflexivity.
    destruct (Hp pDatas eq_refl).
  - intros scene E B pDatas rest -> HE HB Hp.
    rewrite importSceneJSON_members. cbv zeta.
    rewrite (numericField_present _ _ HE), (numericField_present _ _ HB), HE, HB, Hp.
    destruct (present (member (Some scene) "fields")) eqn:Hf.
    2:{ destruct (member (Some scene) "fields") as [[] |]; discriminate. }
    cbn [andb negb option_map].
    destruct (beforeNull_complete pDatas rest) as [-> ->].
    rewrite pushEntries_complete. reflexivity.
  - intros scene -> Hload Hbad. rewrite importSceneJSON_members.
    unfold loadsWithoutAlert in Hload. cbv zeta in *.
    destruct (present (member (Some scene) "fields")); [| discriminate Hload].
    destruct (present (member (member (Some scene) "fields") "E"));
      [| discriminate Hload].
    destruct (present (member (member (Some scene) "fields") "B"));
      [| discriminate Hload].
    cbn [andb negb] in *.
    destruct (member (Some scene) "particles") as [[| | | | pDatas |] |];
      try discriminate Hload.
    rewrite Hload, (beforeNull_all _ Hload). f_equal.
    apply (proj2 (otherParameters_no_throw _ _)).
    destruct Hbad as [HE | [HB | (pDatas' & pData & Hp & Hin & Hnone)]].
    + rewrite HE. cbn [option_map]. apply pushEntries_None.
    + rewrite HB.
      destruct (option_map _ _); apply pushEntries_None.
    + injection Hp as <-. apply (pushEntries_incomplete _ pData); assumption.
  - intros s'. destruct parsed as [scene |].
    2:{ intros H. injection H as <-. repeat split. }
    rewrite importSceneJSON_members. cbv zeta.
    destruct (negb _).
    { intros H. injection H as <-. repeat split. }
    destruct (numericField (member (member (Some scene) "fields") "E"))
      as [E |]; cbn [option_map].
    2:{ destruct (negb _); [discriminate |].
        destruct (member (Some scene) "particles") as [[| | | | pDatas |] |];
          try discriminate.
        rewrite pushEntries_None. destruct (forallb _ pDatas); discriminate. }
    destruct (negb _).
    { intros H. injection H as <-. repeat split. }
    destruct (numericField (member (member (Some scene) "fields") "B"))
      as [B |].
    2:{ destruct (member (Some scene) "particles") as [[| | | | pDatas |] |];
          try discriminate.
        rewrite pushEntries_None. destruct (forallb _ pDatas); discriminate. }
    destruct (member (Some scene) "particles") as [[| | | | pDatas |] |];
      try (intros H; injection H as <-; repeat split).
    destruct (forallb _ pDatas); [discriminate |].
    intros H. injection H as H.
    destruct (pushEntries_frame _ _ _ H) as (s0 & Hs0 & ->).
    injection Hs0 as <-. repeat split.
Qed.

Lemma importSceneJSON_alerts_on_null_or_absent_witness :
  let s := addParticle 1 1 2 0 initialState in
  let fields :=
    JObject [ ("E"%string,
               JObject [ ("magnitude"%string, JNumber 5);
                         ("angle_deg"%string, JNumber 30) ]);
              ("B"%string,
               JObject [ ("magnitude"%string, JNumber 2);
                         ("angle_deg"%string, JNumber 270) ]) ] in
  let entry :=
    {| Scene.id := "p7"; Scene.q := 1; Scene.m := 1; Scene.x := 0;
       Scene.y := 0; Scene.vx := 2; Scene.vy := 0 |} in
  let withNull :=
    JObject [ ("fields"%string, fields);
              ("particles"%string,
               JArray [particleJSON entry; JNull; JNumber 7]) ] in
  let withoutNull :=
    JObject [ ("fields"%string, fields);
              ("particles"%string,
               JArray [particleJSON entry; JNumber 7; JObject []]) ] in
  importSceneJSON (Some withNull) s =
    (Some (set_particles [particleOf entry]
             (clearParticles
                (setMagneticField 2 270 (setElectricField 5 30 s)))), true) /\
  importSceneJSON (Some withoutNull) s = (None, false).
Proof.
  intros s fields entry withNull withoutNull. split.
  - destruct (importSceneJSON_alerts_on_null_or_absent (Some withNull) s)
      as (_ & _ & _ & _ & _ & H & _).
    exact (H withNull {| magnitude := 5; angle_deg := 30 |}
             {| magnitude := 2; angle_deg := 270 |} [entry] [JNumber 7]
             eq_refl eq_refl eq_refl eq_refl).
  - destruct (importSceneJSON_alerts_on_null_or_absent (Some withoutNull) s)
      as (_ & _ & _ & _ & _ & _ & H & _).
    apply (H withoutNull eq_refl eq_refl).
    right; right.
    exists [particleJSON entry; JNumber 7; JObject []], (JNumber 7).
    repeat split. right; left; reflexivity.
Defined.

Lemma Int_part_IZR (z : Z) : Int_part (IZR z) = z.
Proof. symmetry. apply Int_part_spec. lra. Qed.

Lemma asNumber_orElse (v : option R) (d : R) :
  asNumber (orElse (Some (orNull JNumber v)) (JNumber d)) = Some (orDefault v d).
Proof.
  destruct v as [r |]; [| reflexivity].
  unfold orElse, orDefault. cbn [orNull truthy].
  destruct (Req_dec_T r 0); reflexivity.
Qed.

Lemma asCapacity_orElse (v : option Z) :
  asCapacity (orElse (Some (orNull (fun L => JNumber (IZR L)) v)) (JNumber 200)) =
    Some (Finite (orDefaultZ v 200)).
Proof.
  assert (H200 : asCapacity (Some (JNumber 200)) = Some (Finite 200)).
  { unfold asCapacity. rewrite (Int_part_IZR 200).
    destruct (Req_dec_T 200 200); [reflexivity | contradiction]. }
  destruct v as [z |]; [| exact H200].
  unfold orElse, orDefaultZ. cbn [orNull truthy].
  destruct (Req_dec_T (IZR z) 0) as [H0 | H0].
  - apply eq_IZR in H0. subst z. exact H200.
  - destruct (Z.eqb_spec z 0) as [-> | _]; [contradiction H0; reflexivity |].
    unfold asCapacity. rewrite Int_part_IZR.
    destruct (Req_dec_T (IZR z) (IZR z)); [reflexivity | contradiction].
Qed.

Lemma forEachA_typed (pDatas : list (option Scene.particleT)) (s : State) :
  forEachA (map (orNull particleJSON) pDatas) reconstructParticleJSON (Some s) =
    (Some (fst (forEach pDatas reconstructParticle s)),
     snd (forEach pDatas reconstructParticle s)).
Proof.
  revert s. induction pDatas as [| pData pDatas IH]; intros s.
  - reflexivity.
  - cbn [map forEachA forEach]. unfold andThenA, andThen.
    rewrite reconstructParticleJSON_entry.
    destruct pData as [pData |]; [| reflexivity].
    cbn [orNull reconstructParticle withObject assign].
    rewrite entryParticle_particleJSON.
    change (present (Some (particleJSON pData))) with true.
    cbv iota beta. rewrite IH. unfold particleOf.
    destruct (forEach pDatas reconstructParticle _) as [s' [e |]]; reflexivity.
Qed.

Lemma pushEntries_typed (pDatas : list (option Scene.particleT)) (s : State) :
  pushEntries (beforeNull (map (orNull particleJSON) pDatas)) (Some s) =
    Some (fst (forEach pDatas reconstructParticle s)) /\
  forallb (fun pData => present (Some pData))
    (map (orNull particleJSON) pDatas) =
    match snd (forEach pDatas reconstructParticle s) with
    | None => true
    | Some _ => false
    end.
Proof.
  pose proof (forEachA_typed pDatas s) as H.
  rewrite forEachA_reconstructParticleJSON in H.
  injection H as H1 H2. split; [assumption |].
  rewrite <- H2. destruct (forallb _ _); reflexivity.
Qed.

(** On the documents of [Scene.t] the import of JSON values is
    [importScene]. *)
Lemma importSceneJSON_typed (parsed : option Scene.t) (s : State) :
  importSceneJSON (option_map sceneJSON parsed) s =
    (Some (fst (importScene parsed s)), snd (importScene parsed s)).
Proof.
  destruct parsed as [scene |]; [| reflexivity].
  cbn [option_map]. rewrite importSceneJSON_members. cbv zeta.
  unfold otherParameters.
  change (member (Some (sceneJSON scene)) "particles")
    with (Some (orNull (fun pDatas => JArray (map (orNull particleJSON) pDatas))
                  (Scene.particles scene))).
  change (member (Some (sceneJSON scene)) "simulationTime")
    with (Some (orNull JNumber (Scene.simulationTime scene))).
  change (member (Some (sceneJSON scene)) "timeScale")
    with (Some (orNull JNumber (Scene.timeScale scene))).
  change (member (Some (sceneJSON scene)) "trailLength")
    with (Some (orNull (fun L => JNumber (IZR L)) (Scene.trailLength scene))).
  rewrite !asNumber_orElse, asCapacity_orElse.
  change (member (Some (sceneJSON scene)) "fields")
    with (Some (orNull (fun fields =>
                 JObject [ ("E"%string, orNull fieldJSON (Scene.E fields));
                           ("B"%string, orNull fieldJSON (Scene.B fields)) ])
              (Scene.fields scene))).
  destruct (Scene.fields scene) as [[[E |] [B |]] |] eqn:Hf;
    try (unfold importScene, importSceneTry; rewrite Hf; reflexivity).
  destruct (Scene.particles scene) as [pDatas |] eqn:Hp;
    [| unfold importScene, importSceneTry; rewrite Hf, Hp; reflexivity].
  rewrite (importScene_after_fields scene _ E B pDatas s Hf eq_refl eq_refl Hp).
  cbn [orNull member lookup String.eqb Ascii.eqb Bool.eqb fieldJSON
       asNumber numericField option_map magnitude angle_deg Scene.E Scene.B].
  change (present (Some (JObject ?members))) with true.
  cbn [andb negb].
  match goal with
  | |- context [forEach pDatas reconstructParticle ?s1] =>
      destruct (pushEntries_typed pDatas s1) as [-> ->];
      destruct (forEach pDatas reconstructParticle s1) as [s2 [e |]]
  end; reflexivity.
Qed.

(** * Further properties of the code *)

(** ** Coordinates and the measure tool *)

Lemma sqrt_scaled (d : R) : sqrt (d / (SCALE * SCALE)) = sqrt d / SCALE.
Proof.
  unfold SCALE.
  destruct (Rle_dec 0 d) as [Hd | Hd].
  - unfold Rdiv. rewrite sqrt_mult_alt by exact Hd. f_equal.
    rewrite Rinv_mult. apply sqrt_square.
    apply Rlt_le, Rinv_0_lt_compat. lra.
  - assert (Hneg : d < 0) by lra.
    rewrite (sqrt_neg_0 d) by lra.
    rewrite sqrt_neg_0; [lra |].
    assert (Hinv : 0 < / (28 * 28)) by (apply Rinv_0_lt_compat; lra).
    unfold Rdiv. nra.
Qed.

(** X2.  The distance the measure tool prints between two screen points is
    their distance in pixels divided by [SCALE] (28 pixels to the metre);
    it is the same in both directions, is never negative and is 0 from a
    point to itself. *)
Theorem measuredDistance_scaled (a b : Point) :
  measuredDistance a b =
    sqrt ((pt_x b - pt_x a) ^ 2 + (pt_y b - pt_y a) ^ 2) / SCALE /\
  measuredDistance a b = measuredDistance b a /\
  0 <= measuredDistance a b /\
  measuredDistance a a = 0.
Proof.
  assert (Hscaled : forall u v : Point,
            measuredDistance u v =
              sqrt ((pt_x v - pt_x u) ^ 2 + (pt_y v - pt_y u) ^ 2) / SCALE).
  { intros u v. rewrite <- sqrt_scaled. unfold measuredDistance, screenToWorld.
    cbn [pt_x pt_y]. f_equal. unfold CANVAS_WIDTH, CANVAS_HEIGHT, SCALE. field. }
  repeat apply conj.
  - apply Hscaled.
  - rewrite !Hscaled. do 2 f_equal. ring.
  - unfold measuredDistance. apply sqrt_pos.
  - rewrite Hscaled.
    replace ((pt_x a - pt_x a) ^ 2 + (pt_y a - pt_y a) ^ 2) with 0 by ring.
    rewrite sqrt_0. unfold SCALE. lra.
Qed.

(** ** Selecting a particle *)

Lemma findFirst_first {A : Type} (test : A -> bool) (a : list A) (i : nat)
    (v : A) :
  nth_error a i = Some v ->
  test v = true ->
  (forall j vj, (j < i)%nat -> nth_error a j = Some vj -> test vj = false) ->
  findFirst test a = Some i.
Proof.
  revert i. induction a as [| w a IH]; intros [| i] Hnth Hv Hbefore;
    cbn in Hnth; try discriminate.
  - injection Hnth as ->. cbn. rewrite Hv. reflexivity.
  - cbn. rewrite (Hbefore 0%nat w) by (cbn; reflexivity || lia).
    rewrite (IH i Hnth Hv); [reflexivity |].
    intros j vj Hj Hnj. apply (Hbefore (S j) vj); [lia | exact Hnj].
Qed.

Lemma findFirst_none {A : Type} (test : A -> bool) (a : list A) :
  Forall (fun v => test v = false) a -> findFirst test a = None.
Proof.
  induction 1 as [| v a Hv _ IH]; cbn; [reflexivity |].
  rewrite Hv, IH. reflexivity.
Qed.

Lemma nth_error_assignAt {A : Type} (f : A -> A) (a : list A) (i j : nat) :
  nth_error (assignAt i f a) j =
    if Nat.eqb j i then option_map f (nth_error a j) else nth_error a j.
Proof.
  revert i j. induction a as [| v a IH]; intros i j.
  - destruct i, j; cbn; try reflexivity; destruct (Nat.eqb _ _); reflexivity.
  - destruct i as [| i], j as [| j]; cbn; try reflexivity. apply IH.
Qed.

Lemma clicked_true (worldPos : Point) (p : Particle.t) :
  clicked worldPos p = true <-> clickDistance worldPos p < 0.3.
Proof.
  unfold clicked. destruct (Rlt_dec _ _); split; intros H;
    try reflexivity; try assumption; try discriminate; contradiction.
Qed.

Lemma clicked_false (worldPos : Point) (p : Particle.t) :
  clicked worldPos p = false <-> 0.3 <= clickDistance worldPos p.
Proof.
  unfold clicked. destruct (Rlt_dec _ _); split; intros H;
    try reflexivity; try discriminate; lra.
Qed.

(** The particles after [mousePressed] are the particles before it, up to
    their selected flags. *)
Lemma mousePressed_particles (mouseX mouseY : R) (s : State) :
  Forall2 (fun p p' => p' = Particle.set_selected (Particle.selected p') p)
    (particles s) (particles (mousePressed mouseX mouseY s)).
Proof.
  assert (Hsame : forall ps : list Particle.t,
            Forall2 (fun p p' => p' = Particle.set_selected (Particle.selected p') p)
              ps ps).
  { induction ps as [| p ps IH]; constructor; [destruct p; reflexivity | exact IH]. }
  unfold mousePressed.
  destruct (measureMode s).
  - destruct (negb (measuring s)); apply Hsame.
  - destruct (findFirst _ (particles s)) as [i |]; [| apply Hsame].
    cbn [particles set_particles].
    generalize i. clear i.
    induction (particles s) as [| p ps IH]; intros i.
    + destruct i; constructor.
    + destruct i as [| i]; cbn [map assignAt]; constructor; try reflexivity.
      * clear IH. induction ps as [| p' ps IH]; constructor;
          [reflexivity | exact IH].
      * apply IH.
Qed.

(** X3.  A mouse press changes nothing of the particles but their
    selected flags, and no other global outside measure mode.  Outside
    measure mode, a press within 0.3 m of no particle leaves the state as
    it is, and a press within 0.3 m of some particle selects the first such
    particle in array order and deselects every other particle.  In
    measure mode a press leaves the particles as they are. *)
Theorem mousePressed_selects_first_hit (mouseX mouseY : R) (s : State) :
  let worldPos := screenToWorld mouseX mouseY in
  let s' := mousePressed mouseX mouseY s in
  Forall2 (fun p p' => p' = Particle.set_selected (Particle.selected p') p)
    (particles s) (particles s') /\
  (measureMode s = true -> particles s' = particles s) /\
  (measureMode s = false -> s' = set_particles (particles s') s) /\
  (measureMode s = false ->
   Forall (fun p => 0.3 <= clickDistance worldPos p) (particles s) ->
   s' = s) /\
  (forall i p,
     measureMode s = false ->
     nth_error (particles s) i = Some p ->
     clickDistance worldPos p < 0.3 ->
     (forall j pj, (j < i)%nat -> nth_error (particles s) j = Some pj ->
        0.3 <= clickDistance worldPos pj) ->
     forall j pj', nth_error (particles s') j = Some pj' ->
       Particle.selected pj' = Nat.eqb j i).
Proof.
  cbv zeta. repeat apply conj.
  - apply mousePressed_particles.
  - intros Hmode. unfold mousePressed. rewrite Hmode.
    destruct (negb (measuring s)); reflexivity.
  - intros Hmode. unfold mousePressed. rewrite Hmode.
    destruct (findFirst _ (particles s)); [reflexivity |].
    destruct s; reflexivity.
  - intros Hmode Hmiss. unfold mousePressed. rewrite Hmode.
    rewrite findFirst_none; [reflexivity |].
    eapply Forall_impl; [| exact Hmiss].
    intros p Hp. apply clicked_false, Hp.
  - intros i p Hmode Hnth Hhit Hbefore j pj' Hj.
    unfold mousePressed in Hj. rewrite Hmode in Hj.
    rewrite (findFirst_first _ _ i p Hnth) in Hj.
    + cbn [particles set_particles] in Hj.
      rewrite nth_error_assignAt, nth_error_map in Hj.
      destruct (Nat.eqb j i); destruct (nth_error (particles s) j);
        cbn in Hj; try discriminate; injection Hj as <-; reflexivity.
    + apply clicked_true, Hhit.
    + intros k pk Hk Hnk. apply clicked_false, (Hbefore k pk Hk Hnk).
Qed.

(** The theorem at two particles at the origin and a press at the centre
    of the canvas: the first of the two is selected, the second is not. *)
Lemma mousePressed_selects_first_hit_witness :
  let s := set_particles [ Particle.constructor "a" 1 1 0 0 2 0;
                           Particle.constructor "b" (-1) 1 0 0 0 2 ]
             initialState in
  match nth_error (particles (mousePressed 450 350 s)) 0 with
  | Some first => Particle.selected first = true
  | None => True
  end /\
  match nth_error (particles (mousePressed 450 350 s)) 1 with
  | Some second => Particle.selected second = false
  | None => True
  end.
Proof.
  intros s.
  destruct (mousePressed_selects_first_hit 450 350 s) as (_ & _ & _ & _ & Hhit).
  assert (Hselected : forall j pj',
            nth_error (particles (mousePressed 450 350 s)) j = Some pj' ->
            Particle.selected pj' = Nat.eqb j 0).
  { apply (Hhit 0%nat (Particle.constructor "a" 1 1 0 0 2 0)).
    - reflexivity.
    - reflexivity.
    - unfold clickDistance, screenToWorld, CANVAS_WIDTH, CANVAS_HEIGHT, SCALE.
      cbn [Particle.x Particle.y Particle.constructor pt_x pt_y].
      replace ((0 - (450 - 900 / 2) / 28) ^ 2 + (0 - (700 / 2 - 350) / 28) ^ 2)
        with 0 by field.
      rewrite sqrt_0. lra.
    - intros j pj Hj. lia. }
  split.
  - destruct (nth_error (particles (mousePressed 450 350 s)) 0) as [first |] eqn:H0;
      [apply (Hselected 0%nat first H0) | exact I].
  - destruct (nth_error (particles (mousePressed 450 350 s)) 1) as [second |] eqn:H1;
      [apply (Hselected 1%nat second H1) | exact I].
Defined.

(** ** Invariants of the event handlers *)

(** A property of the initial state that every handled event keeps holds
    after every sequence of events; the events may be restricted. *)
Lemma run_invariant (P : State -> Prop) (allowed : Event -> bool) :
  (forall e s, allowed e = true -> P s -> P (handle e s)) ->
  forall events s,
    forallb allowed events = true -> P s -> P (run events s).
Proof.
  intros Hstep events. unfold run.
  induction events as [| e events IH]; intros s Hall Hs; [exact Hs |].
  cbn [forallb] in Hall. apply andb_true_iff in Hall. destruct Hall as [He Hall].
  cbn [fold_left]. apply IH; [exact Hall |]. apply Hstep; assumption.
Qed.

(** The scene import assigns neither [isPlaying] nor the globals of the
    measure tool. *)
Lemma importScene_keeps_mouse (parsed : option Scene.t) (s : State) :
  let s' := fst (importScene parsed s) in
  isPlaying s' = isPlaying s /\
  measureMode s' = measureMode s /\
  measureStart s' = measureStart s /\
  measureEnd s' = measureEnd s /\
  measuring s' = measuring s.
Proof.
  cbv zeta.
  destruct parsed as [scene |]; [| repeat split; reflexivity].
  destruct (Scene.fields scene) as [[[E |] [B |]] |] eqn:Hf;
    try solve [unfold importScene, importSceneTry; rewrite Hf;
               repeat split; reflexivity].
  destruct (Scene.particles scene) as [pDatas |] eqn:Hp;
    [| unfold importScene, importSceneTry; rewrite Hf, Hp;
       repeat split; reflexivity].
  rewrite (importScene_after_fields scene _ E B pDatas s Hf eq_refl eq_refl Hp).
  match goal with
  | |- context [forEach pDatas reconstructParticle ?s1] =>
      destruct (forEach_reconstructParticle pDatas s1) as [Hframe _];
      destruct (forEach pDatas reconstructParticle s1) as [s2 [e |]]
  end; cbn [fst] in *; rewrite Hframe; repeat split; reflexivity.
Qed.

Lemma keydown_cases (key : string) (ctrlKey metaKey : bool) (s : State) :
  keydown key ctrlKey metaKey s = fst (togglePlayPause s) \/
  keydown key ctrlKey metaKey s = resetAllValues s \/
  keydown key ctrlKey metaKey s = clearParticles s \/
  keydown key ctrlKey metaKey s = s.
Proof.
  unfold keydown.
  destruct (String.eqb key " "); [auto |].
  destruct (String.eqb key "r" || String.eqb key "R"); [auto |].
  destruct (String.eqb key "c" || String.eqb key "C"); [| auto].
  destruct (ctrlKey || metaKey); auto.
Qed.

Lemma addParticleClick_cases (q m vx vy : option R) (s : State) :
  fst (addParticleClick q m vx vy s) = s \/
  exists q' m' vx' vy', fst (addParticleClick q m vx vy s) = addParticle q' m' vx' vy' s.
Proof.
  unfold addParticleClick.
  destruct q as [q |], m as [m |], vx as [vx |], vy as [vy |]; auto.
  destruct (Rle_dec m 0); [auto |].
  right. exists q, m, vx, vy. reflexivity.
Qed.

Lemma handle_measureConsistent (e : Event) (s : State) :
  measureConsistent s = true -> measureConsistent (handle e s) = true.
Proof.
  intros Hs. destruct e; cbn [handle]; try exact Hs.
  - unfold draw. destruct (isPlaying s); exact Hs.
  - revert Hs. unfold mousePressed, measureConsistent.
    destruct (measureMode s) eqn:Hmode.
    + destruct (measuring s) eqn:Hmeasuring; cbn [negb].
      * rewrite Hmode, Hmeasuring. auto.
      * intros _. cbn. rewrite Hmode. reflexivity.
    + destruct (findFirst _ (particles s)); cbn; rewrite Hmode; auto.
  - revert Hs. unfold mouseReleased, measureConsistent.
    destruct (measureMode s) eqn:Hmode, (measuring s) eqn:Hmeasuring;
      cbn [andb]; try (rewrite Hmode, Hmeasuring; auto).
    cbn. rewrite Hmode. intros H. apply andb_true_iff in H. apply H.
  - revert Hs. unfold trailLength_input. destruct (Z.eqb value 1000); auto.
  - destruct (addParticleClick_cases q m vx vy s) as [-> | (q' & m' & vx' & vy' & ->)];
      exact Hs.
  - revert Hs. unfold toggleMeasureTool, measureConsistent.
    destruct (measureMode s) eqn:Hmode; cbn.
    + reflexivity.
    + intros H. apply andb_true_iff in H. destruct H as [H Hend].
      apply andb_true_iff in H. destruct H as [Hmeasuring Hstart].
      apply negb_true_iff in Hmeasuring, Hstart, Hend.
      rewrite Hmeasuring, Hstart, Hend. reflexivity.
  - destruct (keydown_cases key ctrlKey metaKey s) as [-> | [-> | [-> | ->]]];
      exact Hs.
  - destruct (importScene_keeps_mouse parsed s) as (_ & Hmode & Hstart & Hend & Hmeasuring).
    unfold measureConsistent. rewrite Hmode, Hstart, Hend, Hmeasuring. exact Hs.
Qed.

(** X4.  After every sequence of events from the initial state the measure
    tool is consistent: when it is off, no measurement is under way and no
    end point is kept; when a measurement is under way, its start is set
    and its end is not; an end point is kept only with a start point. *)
Theorem measure_tool_consistent (events : list Event) :
  let s := run events initialState in
  (measureMode s = false ->
     measuring s = false /\ measureStart s = None /\ measureEnd s = None) /\
  (measuring s = true ->
     measureMode s = true /\ measureStart s <> None /\ measureEnd s = None) /\
  (measureEnd s <> None -> measureStart s <> None).
Proof.
  cbv zeta.
  assert (Hinv : measureConsistent (run events initialState) = true).
  { apply (run_invariant (fun s => measureConsistent s = true) (fun _ => true)).
    - intros e s _. apply handle_measureConsistent.
    - clear. induction events; cbn; auto.
    - reflexivity. }
  revert Hinv. generalize (run events initialState). intros s.
  unfold measureConsistent.
  destruct (measureMode s), (measuring s), (measureStart s), (measureEnd s);
    cbn; intros H; try discriminate H;
    repeat split; intros; congruence.
Qed.

(** The theorem after the measure tool is switched on and the mouse is
    pressed: a measurement is under way, with a start and no end. *)
Lemma measure_tool_consistent_witness :
  let s := run [MeasureToolClick; MousePressed 10 20] initialState in
  measureMode s = true /\ measureStart s <> None /\ measureEnd s = None.
Proof.
  intros s.
  destruct (measure_tool_consistent [MeasureToolClick; MousePressed 10 20])
    as (_ & Hmeasuring & _).
  apply Hmeasuring. reflexivity.
Defined.

(** ** Particle ids *)

Lemma decimal_injective (i j : nat) : decimal i = decimal j -> i = j.
Proof.
  unfold decimal. intros Heq.
  apply (f_equal NilEmpty.uint_of_string) in Heq.
  rewrite !NilEmpty.usu in Heq. injection Heq as Heq.
  apply (f_equal Nat.of_uint) in Heq.
  rewrite !DecimalNat.Unsigned.of_to in Heq. exact Heq.
Qed.

Lemma counterIds_NoDup (n : nat) : NoDup (counterIds n).
Proof.
  unfold counterIds. apply NoDup_map_NoDup_ForallPairs; [| apply seq_NoDup].
  intros i j _ _ Heq. injection Heq as Heq.
  apply decimal_injective, Heq.
Qed.

Lemma counterIds_S (n : nat) :
  counterIds (S n) = counterIds n ++ [("p" ++ decimal n)%string].
Proof. unfold counterIds. rewrite seq_S, map_app. reflexivity. Qed.

Lemma map_id_update (c : Capacity) (dt : R) (E B : Field)
    (ps : list Particle.t) :
  map Particle.id (map (Particle.update c dt E B) ps) = map Particle.id ps.
Proof.
  rewrite map_map. apply map_ext. intros p. apply update_id.
Qed.

Lemma mousePressed_ids (mouseX mouseY : R) (s : State) :
  map Particle.id (particles (mousePressed mouseX mouseY s)) =
    map Particle.id (particles s) /\
  particleIdCounter (mousePressed mouseX mouseY s) = particleIdCounter s.
Proof.
  split.
  - pose proof (mousePressed_particles mouseX mouseY s) as Hps.
    induction Hps as [| p p' ps ps' Hp _ IH]; [reflexivity |].
    cbn [map]. rewrite IH, Hp. reflexivity.
  - unfold mousePressed.
    destruct (measureMode s); [destruct (negb (measuring s)); reflexivity |].
    destruct (findFirst _ (particles s)); reflexivity.
Qed.

Lemma handle_counterIds (e : Event) (s : State) :
  isSceneLoaded e = false ->
  map Particle.id (particles s) = counterIds (particleIdCounter s) ->
  map Particle.id (particles (handle e s)) =
    counterIds (particleIdCounter (handle e s)).
Proof.
  assert (Hadd : forall q m vx vy st,
            map Particle.id (particles st) = counterIds (particleIdCounter st) ->
            map Particle.id (particles (addParticle q m vx vy st)) =
              counterIds (particleIdCounter (addParticle q m vx vy st))).
  { intros q m vx vy st Hst.
    change (particles (addParticle q m vx vy st))
      with (particles st ++
            [Particle.constructor ("p" ++ decimal (particleIdCounter st)) q m
               (pt_x (screenToWorld (CANVAS_WIDTH / 2) (CANVAS_HEIGHT / 2)))
               (pt_y (screenToWorld (CANVAS_WIDTH / 2) (CANVAS_HEIGHT / 2)))
               vx vy]).
    change (particleIdCounter (addParticle q m vx vy st))
      with (S (particleIdCounter st)).
    rewrite map_app, Hst, counterIds_S. reflexivity. }
  assert (Hstep : forall st,
            map Particle.id (particles st) = counterIds (particleIdCounter st) ->
            map Particle.id (particles (stepSimulation st)) =
              counterIds (particleIdCounter (stepSimulation st))).
  { intros st Hst. rewrite stepSimulation_particles, map_id_update. exact Hst. }
  intros He Hs. destruct e; cbn [handle]; try discriminate He; try exact Hs.
  - unfold draw. destruct (isPlaying s); [apply Hstep, Hs | exact Hs].
  - destruct (mousePressed_ids mouseX mouseY s) as [-> ->]. exact Hs.
  - unfold mouseReleased. destruct (measureMode s && measuring s); exact Hs.
  - unfold trailLength_input. destruct (Z.eqb value 1000); exact Hs.
  - destruct (addParticleClick_cases q m vx vy s) as [-> | (q' & m' & vx' & vy' & ->)];
      [exact Hs | apply Hadd, Hs].
  - apply Hstep, Hs.
  - reflexivity.
  - reflexivity.
  - unfold toggleMeasureTool. cbn. destruct (negb (negb (measureMode s))); exact Hs.
  - destruct (keydown_cases key ctrlKey metaKey s) as [-> | [-> | [-> | ->]]];
      try exact Hs; reflexivity.
Qed.

(** X5.  As long as no scene file is loaded, the ids of the particles are
    ["p0"], ["p1"], ... in array order up to the id counter, whatever the
    events from the initial state; so no two particles have the same id. *)
Theorem ids_unique_without_scene_load (events : list Event) :
  forallb (fun e => negb (isSceneLoaded e)) events = true ->
  let s := run events initialState in
  map Particle.id (particles s) = counterIds (particleIdCounter s) /\
  List.length (particles s) = particleIdCounter s /\
  NoDup (map Particle.id (particles s)).
Proof.
  intros Hevents s.
  assert (Hids : map Particle.id (particles s) = counterIds (particleIdCounter s)).
  { apply (run_invariant
             (fun st => map Particle.id (particles st) =
                        counterIds (particleIdCounter st))
             (fun e => negb (isSceneLoaded e))).
    - intros e st He. apply handle_counterIds, negb_true_iff, He.
    - exact Hevents.
    - reflexivity. }
  repeat apply conj.
  - exact Hids.
  - rewrite <- (length_map Particle.id), Hids. unfold counterIds.
    rewrite length_map, length_seq. reflexivity.
  - rewrite Hids. apply counterIds_NoDup.
Qed.

(** The theorem after two particles are added, one step is run, one more
    particle is added and a particle is clicked. *)
Lemma ids_unique_without_scene_load_witness :
  let events :=
    [ AddParticleClick (Some 1) (Some 1) (Some 2) (Some 0);
      AddParticleClick (Some (-1)) (Some 1) (Some 0) (Some 2);
      StepClick;
      AddParticleClick (Some 1) (Some 2) (Some 1) (Some 1);
      MousePressed 450 350 ] in
  NoDup (map Particle.id (particles (run events initialState))).
Proof.
  intros events.
  apply (ids_unique_without_scene_load events). reflexivity.
Defined.

(** ** Scene files *)

(** The particle loop on entries that are all objects: one fresh particle
    per entry is appended, in order. *)
Lemma forEach_all_objects (pds : list Scene.particleT) (s : State) :
  forEach (map Some pds) reconstructParticle s =
    (set_particles
       (particles s ++
        map (fun pd => Particle.constructor (Scene.id pd) (Scene.q pd)
                         (Scene.m pd) (Scene.x pd) (Scene.y pd)
                         (Scene.vx pd) (Scene.vy pd)) pds) s,
     None).
Proof.
  revert s. induction pds as [| pd pds IH]; intros s.
  - cbn. rewrite app_nil_r. destruct s; reflexivity.
  - cbn [map forEach andThen reconstructParticle withObject assign].
    rewrite IH. unfold push. cbn [particles set_particles].
    rewrite <- app_assoc. reflexivity.
Qed.

Lemma all_objects {A : Type} (a : list (option A)) :
  forallb isObject a = true -> exists vs, a = map Some vs.
Proof.
  induction a as [| [v |] a IH]; cbn; intros Hall.
  - exists []. reflexivity.
  - destruct (IH Hall) as [vs ->]. exists (v :: vs). reflexivity.
  - discriminate.
Qed.

(** The state after the import of a well-formed document. *)
Lemma importScene_well_formed (scene : Scene.t) (E B : Field)
    (pds : list Scene.particleT) (s : State) :
  Scene.fields scene = Some {| Scene.E := Some E; Scene.B := Some B |} ->
  Scene.particles scene = Some (map Some pds) ->
  importScene (Some scene) s =
    ({| particles :=
          map (fun pd => Particle.constructor (Scene.id pd) (Scene.q pd)
                           (Scene.m pd) (Scene.x pd) (Scene.y pd)
                           (Scene.vx pd) (Scene.vy pd)) pds;
        particleIdCounter := 0;
        simulationTime := orDefault (Scene.simulationTime scene) 0;
        isPlaying := isPlaying s;
        timeScale := orDefault (Scene.timeScale scene) 1;
        trailLength := Finite (orDefaultZ (Scene.trailLength scene) 200);
        electricField := {| magnitude := magnitude E; angle_deg := angle_deg E |};
        magneticField := {| magnitude := magnitude B; angle_deg := angle_deg B |};
        measureMode := measureMode s;
        measureStart := measureStart s;
        measureEnd := measureEnd s;
        measuring := measuring s |}, false).
Proof.
  intros Hf Hp.
  rewrite (importScene_after_fields scene _ E B (map Some pds) s Hf eq_refl eq_refl Hp).
  rewrite forEach_all_objects. reflexivity.
Qed.

(** X6.  The import of a well-formed document sets the id counter to 0
    and gives the particles the ids of the document.  The particle added
    next is named ["p0"], whatever the ids in the collection: if the
    document has a particle of that id, two particles share it. *)
Theorem importScene_resets_id_counter (scene : Scene.t) (s : State)
    (q m vx vy : R) :
  wellFormed (Some scene) = true ->
  let s' := fst (importScene (Some scene) s) in
  particleIdCounter s' = 0%nat /\
  Scene.particles scene =
    Some (map (fun p => Some {| Scene.id := Particle.id p;
                                Scene.q := Particle.q p;
                                Scene.m := Particle.m p;
                                Scene.x := Particle.x p;
                                Scene.y := Particle.y p;
                                Scene.vx := Particle.vx p;
                                Scene.vy := Particle.vy p |})
              (particles s')) /\
  map Particle.id (particles (addParticle q m vx vy s')) =
    map Particle.id (particles s') ++ ["p0"%string] /\
  (In "p0"%string (map Particle.id (particles s')) ->
   ~ NoDup (map Particle.id (particles (addParticle q m vx vy s')))).
Proof.
  intros Hwf. cbv zeta.
  unfold wellFormed in Hwf.
  destruct (Scene.fields scene) as [[[E |] [B |]] |] eqn:Hf; try discriminate.
  destruct (Scene.particles scene) as [pDatas |] eqn:Hp; try discriminate.
  destruct (all_objects pDatas Hwf) as [pds ->].
  rewrite (importScene_well_formed scene E B pds s Hf Hp).
  cbn [fst particleIdCounter particles].
  assert (Hnext : map Particle.id
                    (particles
                       (addParticle q m vx vy
                          (fst (importScene (Some scene) s)))) =
                  map Particle.id (particles (fst (importScene (Some scene) s)))
                  ++ ["p0"%string]).
  { rewrite (importScene_well_formed scene E B pds s Hf Hp). cbn [fst].
    unfold addParticle, push.
    cbn [particles set_particles set_particleIdCounter particleIdCounter].
    rewrite map_app. reflexivity. }
  rewrite (importScene_well_formed scene E B pds s Hf Hp) in Hnext.
  cbn [fst particles] in Hnext.
  repeat apply conj.
  - reflexivity.
  - f_equal. rewrite map_map. apply map_ext. intros [i q0 m0 x0 y0 vx0 vy0].
    reflexivity.
  - exact Hnext.
  - intros Hin Hnodup. rewrite Hnext in Hnodup.
    apply NoDup_remove_2 in Hnodup. rewrite app_nil_r in Hnodup.
    contradiction.
Qed.

(** The theorem at the scene exported after one particle was added: after
    it is loaded again, the next particle added is a second ["p0"]. *)
Lemma importScene_resets_id_counter_witness :
  let saved := exportScene (addParticle 1 1 2 0 initialState) in
  ~ NoDup (map Particle.id
             (particles
                (addParticle (-1) 1 0 2
                   (fst (importScene (Some saved) initialState))))).
Proof.
  intros saved.
  destruct (importScene_resets_id_counter saved initialState (-1) 1 0 2)
    as (_ & _ & _ & Hdup).
  - reflexivity.
  - apply Hdup. left. reflexivity.
Defined.



(** ** The reset button and the magnetic-field controls *)

(** X8.  The reset of the UI ([resetAllValues]) puts the fields, the trail
    length, the simulation time, the particle collection and the id
    counter back to their initial values: unlike [resetSimulation] it
    removes every particle.  It assigns neither [isPlaying] nor
    [timeScale] nor the measure tool: a running simulation keeps running
    at the same time scale. *)
Theorem resetAllValues_initial (s : State) :
  resetAllValues s =
    {| particles := particles initialState;
       particleIdCounter := particleIdCounter initialState;
       simulationTime := simulationTime initialState;
       isPlaying := isPlaying s;
       timeScale := timeScale s;
       trailLength := trailLength initialState;
       electricField := electricField initialState;
       magneticField := magneticField initialState;
       measureMode := measureMode s;
       measureStart := measureStart s;
       measureEnd := measureEnd s;
       measuring := measuring s |} /\
  resetAllValues (resetAllValues s) = resetAllValues s.
Proof.
  split; reflexivity.
Qed.

Lemma getBDirectionAngle_cases (selected : option string) :
  (selected = Some "in"%string /\ getBDirectionAngle selected = 270) \/
  (selected <> Some "in"%string /\ getBDirectionAngle selected = 90).
Proof.
  unfold getBDirectionAngle. destruct selected as [value |].
  - destruct (String.eqb value "in") eqn:Hvalue.
    + apply String.eqb_eq in Hvalue. subst value. left. split; reflexivity.
    + right. split; [| reflexivity]. intros H. injection H as ->.
      rewrite String.eqb_refl in Hvalue. discriminate.
  - right. split; [discriminate | reflexivity].
Qed.

Lemma Bz_of_270 (mag : R) :
  Particle.Bz_of {| magnitude := mag; angle_deg := 270 |} = - mag.
Proof.
  unfold Particle.Bz_of. cbn [angle_deg magnitude].
  destruct (Req_dec_T 270 90) as [H | H]; [lra | reflexivity].
Qed.

Lemma Bz_of_90 (mag : R) :
  Particle.Bz_of {| magnitude := mag; angle_deg := 90 |} = mag.
Proof.
  unfold Particle.Bz_of. cbn [angle_deg magnitude].
  destruct (Req_dec_T 90 90) as [H | H]; [reflexivity | contradiction].
Qed.

Lemma handle_magnetic_angle (e : Event) (s : State) :
  isSceneLoaded e = false ->
  angle_deg (magneticField s) = 90 \/ angle_deg (magneticField s) = 270 ->
  angle_deg (magneticField (handle e s)) = 90 \/
  angle_deg (magneticField (handle e s)) = 270.
Proof.
  intros He Hs. destruct e; cbn [handle]; try discriminate He; try exact Hs.
  - unfold draw. destruct (isPlaying s); exact Hs.
  - unfold mousePressed.
    destruct (measureMode s); [destruct (negb (measuring s)); exact Hs |].
    destruct (findFirst _ (particles s)); exact Hs.
  - unfold mouseReleased. destruct (measureMode s && measuring s); exact Hs.
  - cbn. destruct (getBDirectionAngle_cases selected) as [[_ ->] | [_ ->]]; auto.
  - cbn. destruct (getBDirectionAngle_cases selected) as [[_ ->] | [_ ->]]; auto.
  - unfold trailLength_input. destruct (Z.eqb value 1000); exact Hs.
  - destruct (addParticleClick_cases q m vx vy s) as [-> | (q' & m' & vx' & vy' & ->)];
      exact Hs.
  - left. reflexivity.
  - unfold toggleMeasureTool. cbn. destruct (negb (negb (measureMode s))); exact Hs.
  - destruct (keydown_cases key ctrlKey metaKey s) as [-> | [-> | [-> | ->]]];
      try exact Hs. left. reflexivity.
Qed.

(** X9.  The magnetic-field controls set the angle to 270 when the radio
    button ["in"] is checked and to 90 otherwise, so the force law gets
    [Bz = -magnitude] for ["in"] and [Bz = +magnitude] for every other
    choice.  As long as no scene file is loaded, the angle of the magnetic
    field is 90 or 270 after every sequence of events, and [Bz] is the
    magnitude or its opposite accordingly. *)
Theorem magnetic_controls_sign (value : R) (selected : option string)
    (s : State) (events : list Event) :
  (selected = Some "in"%string ->
   Particle.Bz_of (magneticField (bMagnitude_input value selected s)) = - value /\
   Particle.Bz_of (magneticField (bDirection_change value selected s)) = - value) /\
  (selected <> Some "in"%string ->
   Particle.Bz_of (magneticField (bMagnitude_input value selected s)) = value /\
   Particle.Bz_of (magneticField (bDirection_change value selected s)) = value) /\
  (forallb (fun e => negb (isSceneLoaded e)) events = true ->
   let B := magneticField (run events initialState) in
   (angle_deg B = 90 /\ Particle.Bz_of B = magnitude B) \/
   (angle_deg B = 270 /\ Particle.Bz_of B = - magnitude B)).
Proof.
  repeat apply conj.
  - intros ->. cbn. split; apply Bz_of_270.
  - intros Hout. unfold bMagnitude_input, bDirection_change, setMagneticField.
    cbn [magneticField].
    destruct (getBDirectionAngle_cases selected) as [[Hin _] | [_ ->]];
      [contradiction |].
    split; apply Bz_of_90.
  - intros Hevents B.
    assert (Hangle : angle_deg B = 90 \/ angle_deg B = 270).
    { apply (run_invariant
               (fun st => angle_deg (magneticField st) = 90 \/
                          angle_deg (magneticField st) = 270)
               (fun e => negb (isSceneLoaded e))).
      - intros e st He. apply handle_magnetic_angle, negb_true_iff, He.
      - exact Hevents.
      - left. reflexivity. }
    destruct Hangle as [Hangle | Hangle]; [left | right];
      (split; [exact Hangle |]); destruct B as [mag ang];
      cbn [angle_deg] in Hangle; subst ang;
      [apply Bz_of_90 | apply Bz_of_270].
Qed.

(** The theorem at the initial state, for the choice ["in"], for the
    choice ["out"], and after the field is raised to 2 with ["in"]. *)
Lemma magnetic_controls_sign_witness :
  Particle.Bz_of (magneticField (bMagnitude_input 2 (Some "in"%string) initialState)) = - 2 /\
  Particle.Bz_of (magneticField (bMagnitude_input 2 (Some "out"%string) initialState)) = 2 /\
  (let B := magneticField (run [BMagnitudeInput 2 (Some "in"%string); StepClick]
                             initialState) in
   (angle_deg B = 90 /\ Particle.Bz_of B = magnitude B) \/
   (angle_deg B = 270 /\ Particle.Bz_of B = - magnitude B)).
Proof.
  split; [| split].
  - destruct (magnetic_controls_sign 2 (Some "in"%string) initialState [])
      as (Hin & _ & _).
    apply Hin. reflexivity.
  - destruct (magnetic_controls_sign 2 (Some "out"%string) initialState [])
      as (_ & Hout & _).
    apply Hout. discriminate.
  - destruct (magnetic_controls_sign 2 None initialState
                [BMagnitudeInput 2 (Some "in"%string); StepClick])
      as (_ & _ & Hrun).
    apply Hrun. reflexivity.
Defined.

(** ** More on the integrator *)







(** ** Steps of the state *)



(** X15.  [n] manual steps in a row, with the fields, the time scale and
    the trail length left alone, run every particle through [n] calls of
    [update] with [dt = (1/60) timeScale] and add [dt] to the simulation
    time [n] times; nothing else changes.  [n] frames while playing do the
    same. *)
Theorem stepSimulation_iterated (n : nat) (s : State) :
  let dt := 1 / 60 * timeScale s in
  Nat.iter n stepSimulation s =
    set_simulationTime (Nat.iter n (fun t => t + dt) (simulationTime s))
      (set_particles
         (map (steps n (trailLength s) dt (electricField s) (magneticField s))
              (particles s)) s) /\
  (isPlaying s = true -> Nat.iter n draw s = Nat.iter n stepSimulation s).
Proof.
  cbv zeta.
  assert (Hsteps : Nat.iter n stepSimulation s =
            set_simulationTime
              (Nat.iter n (fun t => t + 1 / 60 * timeScale s) (simulationTime s))
              (set_particles
                 (map (steps n (trailLength s) (1 / 60 * timeScale s)
                         (electricField s) (magneticField s))
                      (particles s)) s)).
  { induction n as [| n IH].
    - cbn [Nat.iter]. unfold steps. cbn [Nat.iter].
      rewrite map_id. destruct s; reflexivity.
    - change (Nat.iter (S n) stepSimulation s)
        with (stepSimulation (Nat.iter n stepSimulation s)).
      rewrite IH.
      unfold stepSimulation at 1, updateParticles.
      cbn [particles simulationTime timeScale trailLength electricField
           magneticField set_particles set_simulationTime].
      rewrite map_map.
      match goal with
      | |- context [map ?f (particles s)] =>
          lazymatch f with
          | (fun x => Particle.update _ _ _ _ _) =>
              rewrite (map_ext f
                         (steps (S n) (trailLength s) (1 / 60 * timeScale s)
                            (electricField s) (magneticField s))
                         (fun x => eq_refl))
          end
      end.
      change (Nat.iter (S n) (fun t => t + 1 / 60 * timeScale s) (simulationTime s))
        with (Nat.iter n (fun t => t + 1 / 60 * timeScale s) (simulationTime s)
              + 1 / 60 * timeScale s).
      generalize (map (steps (S n) (trailLength s) (1 / 60 * timeScale s)
                         (electricField s) (magneticField s)) (particles s)).
      generalize (map (steps n (trailLength s) (1 / 60 * timeScale s)
                         (electricField s) (magneticField s)) (particles s)).
      generalize (Nat.iter n (fun t => t + 1 / 60 * timeScale s) (simulationTime s)).
      intros t ps1 ps2. reflexivity. }
  split; [exact Hsteps |].
  intros Hplaying. clear Hsteps.
  induction n as [| n IH]; [reflexivity |].
  change (Nat.iter (S n) draw s) with (draw (Nat.iter n draw s)).
  change (Nat.iter (S n) stepSimulation s)
    with (stepSimulation (Nat.iter n stepSimulation s)).
  rewrite IH. unfold draw.
  assert (Hstill : isPlaying (Nat.iter n stepSimulation s) = true).
  { clear IH. induction n as [| n IH]; [exact Hplaying | exact IH]. }
  rewrite Hstill. reflexivity.
Qed.

(** The theorem at the initial state set playing: three frames are three
    manual steps. *)
Lemma stepSimulation_iterated_witness :
  let s := fst (togglePlayPause (addParticle 1 1 2 0 initialState)) in
  Nat.iter 3 draw s = Nat.iter 3 stepSimulation s.
Proof.
  intros s.
  destruct (stepSimulation_iterated 3 s) as [_ Hframes].
  apply Hframes. reflexivity.
Defined.

(** ** More on the trail *)

(** X16.  After a step at a capacity of at least 1, or [Infinity], the
    newest entry of the trail is the position of the particle.  At a
    capacity of 0 or less an empty trail stays empty: the entry pushed is
    evicted at once. *)
Theorem trail_ends_at_position (c : Capacity) (dt : R) (E B : Field)
    (p : Particle.t) :
  let p' := Particle.update c dt E B p in
  (exceeds 1 c = false ->
   exists older, Particle.trail p' = older ++ [position p']) /\
  (exceeds 1 c = true -> Particle.trail p = [] -> Particle.trail p' = []).
Proof.
  cbv zeta. rewrite update_trail_evict.
  generalize (position (Particle.update c dt E B p)). intros v.
  unfold evict, push, shift. split.
  - intros Hroom. destruct (Particle.trail p) as [| old tr].
    + cbn [app List.length]. rewrite Hroom. exists []. reflexivity.
    + destruct (exceeds (List.length ((old :: tr) ++ [v])) c).
      * exists tr. reflexivity.
      * exists (old :: tr). reflexivity.
  - intros Hnone ->. cbn [app List.length]. rewrite Hnone. reflexivity.
Qed.

(** The theorem at the default capacity 200 and at the capacity 0. *)
Lemma trail_ends_at_position_witness :
  let E := {| magnitude := 0; angle_deg := 0 |} in
  let B := {| magnitude := 1; angle_deg := 90 |} in
  let p := Particle.constructor "p0" 1 1 0 0 2 0 in
  (exists older,
     Particle.trail (Particle.update (Finite 200) (1 / 60) E B p) =
       older ++ [position (Particle.update (Finite 200) (1 / 60) E B p)]) /\
  Particle.trail (Particle.update (Finite 0) (1 / 60) E B p) = [].
Proof.
  intros E B p. split.
  - apply (trail_ends_at_position (Finite 200) (1 / 60) E B p). reflexivity.
  - apply (trail_ends_at_position (Finite 0) (1 / 60) E B p); reflexivity.
Defined.

(** X17.  A trail that is longer than the capacity is never shortened by
    the integrator: it has the same length after any number of steps (each
    step pushes one entry and evicts one). *)
Theorem over_capacity_trail_keeps_length (c : Capacity) (dt : R) (E B : Field)
    (p : Particle.t) (n : nat) :
  withinCapacity c p = false ->
  List.length (Particle.trail (steps n c dt E B p)) =
    List.length (Particle.trail p) /\
  withinCapacity c (steps n c dt E B p) = false.
Proof.
  intros Hover. induction n as [| n [IHlen IHover]]; [split; [reflexivity | exact Hover] |].
  rewrite steps_S.
  assert (Hlen : List.length (Particle.trail
                    (Particle.update c dt E B (steps n c dt E B p))) =
                 List.length (Particle.trail p)).
  { rewrite update_over_capacity; assumption. }
  split; [exact Hlen |].
  unfold withinCapacity in *. rewrite Hlen. exact Hover.
Qed.

(** The theorem at a trail of three points and the capacity 1. *)
Lemma over_capacity_trail_keeps_length_witness :
  let E := {| magnitude := 0; angle_deg := 0 |} in
  let B := {| magnitude := 1; angle_deg := 90 |} in
  let origin := {| pt_x := 0; pt_y := 0 |} in
  let p := Particle.set_trail [origin; origin; origin]
             (Particle.constructor "p0" 1 1 0 0 2 0) in
  List.length (Particle.trail (steps 5 (Finite 1) (1 / 60) E B p)) = 3%nat.
Proof.
  intros E B origin p.
  apply (over_capacity_trail_keeps_length (Finite 1) (1 / 60) E B p 5).
  reflexivity.
Defined.

(** ** Remote results *)

Lemma sameIdentity_refl (ps : list Particle.t) : Forall2 sameIdentity ps ps.
Proof.
  induction ps; constructor; [repeat split | assumption].
Qed.

Lemma sameIdentity_trans (l1 l2 l3 : list Particle.t) :
  Forall2 sameIdentity l1 l2 -> Forall2 sameIdentity l2 l3 ->
  Forall2 sameIdentity l1 l3.
Proof.
  intros H12. revert l3.
  induction H12 as [| a b l1 l2 (Hi & Hq & Hm & Hs) _ IH]; intros l3 H23;
    inversion H23 as [| b' c l2' l3' (Hi' & Hq' & Hm' & Hs') H23']; subst;
    constructor; [| apply IH, H23'].
  repeat split; congruence.
Qed.

Lemma assignAt_sameIdentity (i : nat) (p p' : Particle.t)
    (ps : list Particle.t) :
  nth_error ps i = Some p ->
  sameIdentity p p' ->
  Forall2 sameIdentity ps (assignAt i (fun _ => p') ps).
Proof.
  intros Hnth Hsame. revert i Hnth.
  induction ps as [| a ps IH]; intros [| i] Hnth;
    cbn in Hnth; try discriminate; cbn [assignAt].
  - injection Hnth as ->. constructor; [exact Hsame | apply sameIdentity_refl].
  - constructor; [repeat split | apply IH, Hnth].
Qed.

Lemma applySeries_sameIdentity (data : Results.seriesT) (p p' : Particle.t) :
  applySeries data p = Some p' -> sameIdentity p p'.
Proof.
  unfold applySeries.
  destruct (Z.ltb _ 0); [discriminate |].
  destruct (nth_error (Results.x data) _); [| discriminate].
  destruct (nth_error (Results.y data) _); [| discriminate].
  destruct (nth_error (Results.vx data) _); [| discriminate].
  destruct (nth_error (Results.vy data) _); [| discriminate].
  destruct (allDefined _); [| discriminate].
  intros H. injection H as <-. repeat split; reflexivity.
Qed.

Lemma applyEntries_sameIdentity (entries : list (string * Results.seriesT))
    (ps ps' : list Particle.t) :
  applyEntries entries ps = Some ps' -> Forall2 sameIdentity ps ps'.
Proof.
  revert ps. induction entries as [| [key data] entries IH]; intros ps; cbn.
  - intros H. injection H as <-. apply sameIdentity_refl.
  - destruct (findFirst _ ps) as [i |] eqn:Hfind; [| apply IH].
    destruct (nth_error ps i) as [p |] eqn:Hnth; [| apply IH].
    destruct (applySeries data p) as [p' |] eqn:Hseries; cbn; [| discriminate].
    intros Hrest.
    apply (sameIdentity_trans _ (assignAt i (fun _ => p') ps)); [| apply IH, Hrest].
    apply (assignAt_sameIdentity i p p' ps Hnth).
    apply (applySeries_sameIdentity data), Hseries.
Qed.

(** X18.  [applySimulationResults] changes nothing when the results are
    missing or have no data.  When it applies results, it keeps the
    particles in number and order, each with its id, charge, mass and
    selected flag, and it assigns no global but the particles. *)
Theorem applySimulationResults_frame (results : option Results.t)
    (s s' : State) :
  applySimulationResults None s = Some s /\
  applySimulationResults (Some {| Results.data := None |}) s = Some s /\
  (applySimulationResults results s = Some s' ->
   s' = set_particles (particles s') s /\
   Forall2 sameIdentity (particles s) (particles s')).
Proof.
  repeat apply conj; try reflexivity.
  assert (Hsame : s = set_particles (particles s) s) by (destruct s; reflexivity).
  unfold applySimulationResults.
  destruct results as [[[entries |]] |]; cbn [Results.data].
  - destruct (applyEntries entries (particles s)) as [ps' |] eqn:Hentries;
      cbn; [| discriminate].
    intros H. injection H as <-. split; [reflexivity |].
    apply (applyEntries_sameIdentity entries), Hentries.
  - intros H. injection H as <-. split; [exact Hsame | apply sameIdentity_refl].
  - intros H. injection H as <-. split; [exact Hsame | apply sameIdentity_refl].
Qed.

(** The theorem at one particle and a result of two samples for it. *)
Lemma applySimulationResults_frame_witness :
  let data := {| Results.x := [0; 1]; Results.y := [0; 0];
                 Results.vx := [1; 1]; Results.vy := [0; 1] |} in
  let p := Particle.constructor "p0" 1 1 0 0 1 0 in
  let p' := {| Particle.id := "p0"; Particle.q := 1; Particle.m := 1;
               Particle.x := 1; Particle.y := 0;
               Particle.vx := 1; Particle.vy := 1;
               Particle.trail := [ {| pt_x := 0; pt_y := 0 |};
                                   {| pt_x := 1; pt_y := 0 |} ];
               Particle.selected := false |} in
  Forall2 sameIdentity
    (particles (set_particles [p] initialState))
    (particles (set_particles [p'] initialState)).
Proof.
  intros data p p'.
  apply (applySimulationResults_frame
           (Some {| Results.data := Some [("p0"%string, data)] |})
           (set_particles [p] initialState)
           (set_particles [p'] initialState)).
  reflexivity.
Defined.

Lemma allDefined_samples (xs ys : list R) :
  List.length ys = List.length xs ->
  allDefined
    (map (fun i => match nth_error xs i, nth_error ys i with
                   | Some xi, Some yi => Some {| pt_x := xi; pt_y := yi |}
                   | _, _ => None
                   end)
         (seq 0 (List.length xs))) =
    Some (map (fun xy => {| pt_x := fst xy; pt_y := snd xy |}) (combine xs ys)).
Proof.
  revert ys. induction xs as [| a xs IH]; intros [| b ys] Hlen;
    try discriminate Hlen; [reflexivity |].
  injection Hlen as Hlen.
  cbn [List.length seq map nth_error allDefined combine fst snd].
  rewrite <- seq_shift, map_map. cbn [nth_error].
  rewrite (IH ys Hlen). reflexivity.
Qed.

Lemma nth_error_combine {A B : Type} (xs : list A) (ys : list B) (n : nat)
    (a : A) (b : B) :
  nth_error xs n = Some a -> nth_error ys n = Some b ->
  nth_error (combine xs ys) n = Some (a, b).
Proof.
  revert ys n. induction xs as [| x xs IH]; intros [| y ys] [| n] Ha Hb;
    cbn in *; try discriminate.
  - injection Ha as ->. injection Hb as ->. reflexivity.
  - apply IH; assumption.
Qed.

Lemma nth_error_last_index {A : Type} (a : list A) (n : nat) :
  List.length a = S n -> exists v, nth_error a n = Some v.
Proof.
  intros Hlen. destruct (nth_error a n) as [v |] eqn:Hnth; [exists v; reflexivity |].
  apply nth_error_None in Hnth. lia.
Qed.

(** X19.  When the four arrays of a series have the same length [n + 1],
    [applySimulationResults] gives the particle the last sample as position
    and velocity and the whole series as trail: the trail has [n + 1]
    entries, whatever the trail length of the simulation, and ends at the
    position of the particle.  A series longer than a finite capacity
    leaves the particle above the capacity. *)
Theorem applySeries_whole_series (data : Results.seriesT) (p : Particle.t)
    (n : nat) :
  List.length (Results.x data) = S n ->
  List.length (Results.y data) = S n ->
  List.length (Results.vx data) = S n ->
  List.length (Results.vy data) = S n ->
  exists p',
    applySeries data p = Some p' /\
    Particle.trail p' =
      map (fun xy => {| pt_x := fst xy; pt_y := snd xy |})
          (combine (Results.x data) (Results.y data)) /\
    List.length (Particle.trail p') = S n /\
    nth_error (Results.x data) n = Some (Particle.x p') /\
    nth_error (Results.y data) n = Some (Particle.y p') /\
    nth_error (Results.vx data) n = Some (Particle.vx p') /\
    nth_error (Results.vy data) n = Some (Particle.vy p') /\
    nth_error (Particle.trail p') n = Some (position p') /\
    (forall L, (L < Z.of_nat (S n))%Z -> withinCapacity (Finite L) p' = false).
Proof.
  intros Hx Hy Hvx Hvy.
  destruct (nth_error_last_index _ n Hx) as [x Hnx].
  destruct (nth_error_last_index _ n Hy) as [y Hny].
  destruct (nth_error_last_index _ n Hvx) as [vx Hnvx].
  destruct (nth_error_last_index _ n Hvy) as [vy Hnvy].
  assert (Htrail : List.length
                     (map (fun xy => {| pt_x := fst xy; pt_y := snd xy |})
                        (combine (Results.x data) (Results.y data))) = S n).
  { rewrite length_map, length_combine, Hx, Hy. apply Nat.min_id. }
  eexists. split.
  - unfold applySeries. rewrite Hx.
    replace (Z.of_nat (S n) - 1)%Z with (Z.of_nat n) by lia.
    replace (Z.of_nat n <? 0)%Z with false by (symmetry; apply Z.ltb_ge; lia).
    rewrite Nat2Z.id, Hnx, Hny, Hnvx, Hnvy, <- Hx.
    rewrite allDefined_samples by congruence. reflexivity.
  - cbn [Particle.trail Particle.set_trail Particle.x Particle.y Particle.vx
         Particle.vy Particle.set_vy Particle.set_vx Particle.set_y
         Particle.set_x position].
    repeat apply conj; try assumption; try reflexivity.
    + rewrite nth_error_map, (nth_error_combine _ _ n x y Hnx Hny). reflexivity.
    + intros L HL. unfold withinCapacity.
      cbn [Particle.trail Particle.set_trail exceeds]. rewrite Htrail.
      apply negb_false_iff, Z.ltb_lt. exact HL.
Qed.

(** The theorem at a series of three samples, for a particle at a trail
    length of 2. *)
Lemma applySeries_whole_series_witness :
  let data := {| Results.x := [0; 1; 2]; Results.y := [0; 0; 1];
                 Results.vx := [1; 1; 1]; Results.vy := [0; 1; 1] |} in
  let p := Particle.constructor "p0" 1 1 0 0 1 0 in
  exists p',
    applySeries data p = Some p' /\
    List.length (Particle.trail p') = 3%nat /\
    withinCapacity (Finite 2) p' = false.
Proof.
  intros data p.
  destruct (applySeries_whole_series data p 2)
    as (p' & Happly & _ & Hlen & _ & _ & _ & _ & _ & Hover);
    try reflexivity.
  exists p'. repeat split; [exact Happly | exact Hlen |].
  apply Hover. lia.
Defined.

(** X20.  A result whose id is the id of no particle is ignored.  A result
    for an id that several particles share goes to the first of them in
    array order: the other particles, those of that id included, are left
    as they are. *)
Theorem applySimulationResults_first_match (particleId : string)
    (data : Results.seriesT) (s : State) :
  let results := Some {| Results.data := Some [(particleId, data)] |} in
  (Forall (fun p => Particle.id p <> particleId) (particles s) ->
   applySimulationResults results s = Some s) /\
  (forall i p p',
     nth_error (particles s) i = Some p ->
     Particle.id p = particleId ->
     (forall j pj, (j < i)%nat -> nth_error (particles s) j = Some pj ->
        Particle.id pj <> particleId) ->
     applySeries data p = Some p' ->
     exists s',
       applySimulationResults results s = Some s' /\
       nth_error (particles s') i = Some p' /\
       (forall j, j <> i ->
          nth_error (particles s') j = nth_error (particles s) j)).
Proof.
  cbv zeta. unfold applySimulationResults. cbn [Results.data applyEntries applyEntry].
  split.
  - intros Hnone. rewrite findFirst_none.
    + cbn. destruct s; reflexivity.
    + eapply Forall_impl; [| exact Hnone]. intros p Hp.
      apply String.eqb_neq, Hp.
  - intros i p p' Hnth Hid Hbefore Hseries.
    rewrite (findFirst_first _ _ i p Hnth).
    + rewrite Hnth, Hseries. cbn [option_map].
      eexists. split; [reflexivity |].
      cbn [particles set_particles]. split.
      * rewrite nth_error_assignAt, Nat.eqb_refl, Hnth. reflexivity.
      * intros j Hj. rewrite nth_error_assignAt.
        apply Nat.eqb_neq in Hj. rewrite Hj. reflexivity.
    + apply String.eqb_eq, Hid.
    + intros j pj Hj Hnj. apply String.eqb_neq, (Hbefore j pj Hj Hnj).
Qed.

(** The theorem at two particles that share the id ["p0"] (one loaded from
    a scene, one added after it): the result goes to the first. *)
Lemma applySimulationResults_first_match_witness :
  let data := {| Results.x := [0; 1]; Results.y := [0; 0];
                 Results.vx := [1; 1]; Results.vy := [0; 1] |} in
  let first := Particle.constructor "p0" 1 1 0 0 1 0 in
  let second := Particle.constructor "p0" (-1) 1 0 0 0 1 in
  let s := set_particles [first; second] initialState in
  exists s',
    applySimulationResults
      (Some {| Results.data := Some [("p0"%string, data)] |}) s = Some s' /\
    nth_error (particles s') 1 = Some second.
Proof.
  intros data first second s.
  pose (p' := {| Particle.id := "p0"; Particle.q := 1; Particle.m := 1;
                 Particle.x := 1; Particle.y := 0;
                 Particle.vx := 1; Particle.vy := 1;
                 Particle.trail := [ {| pt_x := 0; pt_y := 0 |};
                                     {| pt_x := 1; pt_y := 0 |} ];
                 Particle.selected := false |}).
  destruct (applySimulationResults_first_match "p0" data s) as [_ Hfirst].
  destruct (Hfirst 0%nat first p') as (s' & Hs' & _ & Hothers).
  - reflexivity.
  - reflexivity.
  - intros j pj Hj. lia.
  - reflexivity.
  - exists s'. split; [exact Hs' |].
    rewrite (Hothers 1%nat) by lia. reflexivity.
Defined.
